(** * covidtracker: the data preparation and filtering logic of
      [covidtracker-usa.ipynb], embedded in Rocq.

    The notebook reads the New York Times county table, turns the cumulative
    counts of every (state, county) locality into daily counts, and plots
    the result with optional locality filters.  This file embeds

    - the "Collate Data" cell (the loop that builds [local_dfs] and the
      [full_df] table),
    - the locality filters of [plot_timeseries] and [make_plots],
    - the date aggregation and the anomaly mask of [plot_timeseries],
    - the filter and the aggregation of [plot_daily_cumulative_summary],
    - the title, the aggregation and the recent window of [make_plots], the
      lookup of the anomaly markers and the options of the two dropdowns.

    The statistics and charting libraries (the seasonal decomposition, the
    figures, the reductions [mean] and [std] of a series) are not part of
    the notebook's own code: the residual series of the decomposition is an
    input of the anomaly mask, and the two reductions are parameters.

    A DataFrame is a list of rows in row order; the row index is not a
    column and is left out.  A date is the day number of its timestamp.  A
    blank field of the file is a missing value (NaN) of the frame: the
    state, the county, the code and the two counts of a row may be missing.
    A count is a whole number and carries the type of its column: a column
    without a blank holds 64-bit integers, a column with a blank holds
    64-bit floats. *)

From Stdlib Require Floats.
From Stdlib Require Import ZArith List String Ascii Bool Lia.
From Stdlib Require Import Permutation Sorted.
Import ListNotations.

Local Open Scope Z_scope.

(** ** Orders given by a three-way comparison

    The sort of the notebook orders rows by three columns in turn.  The
    comparison of each column is a three-way comparison; the class collects
    what makes such a comparison a total order. *)

Class TotalCmp {A : Type} (cmp : A -> A -> comparison) : Prop := {
  cmp_refl : forall x, cmp x x = Eq;
  cmp_eq : forall x y, cmp x y = Eq -> x = y;
  cmp_antisym : forall x y, cmp y x = CompOpp (cmp x y);
  cmp_lt_trans : forall x y z, cmp x y = Lt -> cmp y z = Lt -> cmp x z = Lt
}.

(** Lexicographic combination: the first comparison decides unless it says
    [Eq]. *)
Definition lex (c1 c2 : comparison) : comparison :=
  match c1 with Eq => c2 | _ => c1 end.

Definition lex_pair {A B : Type} (ca : A -> A -> comparison)
    (cb : B -> B -> comparison) (p q : A * B) : comparison :=
  lex (ca (fst p) (fst q)) (cb (snd p) (snd q)).

Definition cmp_leb {A : Type} (cmp : A -> A -> comparison) (x y : A) : bool :=
  match cmp x y with Gt => false | _ => true end.

(** ** Stable sort

    pandas sorts on several columns with a stable lexicographic sort; the
    model is the insertion sort that puts a row before the rows it is not
    greater than, which keeps rows of equal key in their former order. *)

Section StableSort.
Context {A : Type} (leb : A -> A -> bool).

Fixpoint insert (x : A) (l : list A) : list A :=
  match l with
  | [] => [x]
  | y :: l' => if leb x y then x :: y :: l' else y :: insert x l'
  end.

Fixpoint stable_sort (l : list A) : list A :=
  match l with
  | [] => []
  | x :: l' => insert x (stable_sort l')
  end.
End StableSort.

(** ** Numbers of the frame *)

Definition int64_min : Z := - 2 ^ 63.
Definition int64_max : Z := 2 ^ 63 - 1.

(** Arithmetic of 64-bit integers wraps around. *)
Definition wrap64 (x : Z) : Z := (x + 2 ^ 63) mod 2 ^ 64 - 2 ^ 63.

(** The 64-bit float nearest to a whole number: 53 significant bits, a tie
    goes to the even mantissa.  (Numbers of 1024 bits and more, which would
    become infinite, do not arise from 64-bit counts.) *)
Definition float64 (x : Z) : Z :=
  let a := Z.abs x in
  if a <? 2 ^ 53 then x
  else
    let e := Z.log2 a - 52 in
    let q := a / 2 ^ e in
    let r := a mod 2 ^ e in
    let h := 2 ^ (e - 1) in
    let q' := if r <? h then q
              else if h <? r then q + 1
              else if Z.even q then q else q + 1 in
    Z.sgn x * (q' * 2 ^ e).

(** [astype('int')] of a whole float: the 64-bit integer of the same value.
    A value outside the 64-bit range has no integer; the common processors
    then give the smallest 64-bit integer. *)
Definition astype_int (x : Z) : Z :=
  if (int64_min <=? x) && (x <=? int64_max) then x else int64_min.

(** A cell of a count column.  A column has one type: its cells are all
    64-bit integers, or, when a count of the file is blank, all floats, the
    blank ones NaN. *)
Inductive count : Type :=
| Int64 (z : Z)
| Float64 (z : Z)
| NaN.

Definition value_of (c : count) : option Z :=
  match c with
  | Int64 z | Float64 z => Some z
  | NaN => None
  end.

Definition is_int64 (c : count) : bool :=
  match c with Int64 _ => true | _ => false end.

(** The number in a cell, 0 for a missing one. *)
Definition cell_value (c : count) : Z :=
  match value_of c with Some z => z | None => 0 end.

(** The cells are counts: present, not negative and not beyond the largest
    64-bit integer. *)
Definition counts_in_range (xs : list count) : bool :=
  forallb (fun c => match value_of c with
                    | Some z => (0 <=? z) && (z <=? int64_max)
                    | None => false
                    end) xs.

(** ** The input table [us_counties] *)

Module Csv.
(** One row of [us_counties], in the column order of the file. *)
Record row : Type := mk {
  date : Z;
  county : option string;
  state : option string;
  fips : option Z;
  cases : count;
  deaths : count
}.
End Csv.

(** A row of a local frame [ldf] and of [full_df]: the six columns of the
    input and the two daily columns.  Only rows whose state and county are
    present reach a local frame. *)
Record row : Type := mk_row {
  date : Z;
  county : string;
  state : string;
  fips : option Z;
  cases : count;
  deaths : count;
  daily_cases : Z;
  daily_deaths : Z
}.

(** The six original columns of a derived row. *)
Definition original (r : row) : Csv.row :=
  Csv.mk (date r) (Some (county r)) (Some (state r)) (fips r) (cases r) (deaths r).

(** ** Series operations used by the collate cell *)

(** One entry of [Series.diff()].  In an integer column the two cells are
    subtracted as 64-bit integers and the result is stored as a float; in a
    float column they are subtracted as floats, and a missing cell gives a
    missing difference. *)
Definition sub_count (x prev : count) : option Z :=
  match x, prev with
  | NaN, _ | _, NaN => None
  | Int64 a, Int64 b => Some (float64 (wrap64 (a - b)))
  | Int64 a, Float64 b | Float64 a, Int64 b | Float64 a, Float64 b =>
      Some (float64 (a - b))
  end.

(** [Series.diff()]: the first entry is missing (NaN), every later entry is
    the cell minus the cell of the row before. *)
Fixpoint diff_from (prev : count) (xs : list count) : list (option Z) :=
  match xs with
  | [] => []
  | x :: xs' => sub_count x prev :: diff_from x xs'
  end.

Definition diff (xs : list count) : list (option Z) :=
  match xs with
  | [] => []
  | x :: xs' => None :: diff_from x xs'
  end.

(** [Series.fillna(v)]. *)
Definition fillna (v : Z) (xs : list (option Z)) : list Z :=
  map (fun o => match o with Some x => x | None => v end) xs.

(** One entry of [.diff().fillna(0).astype('int')] after the first. *)
Definition daily_step (x prev : count) : Z :=
  astype_int (match sub_count x prev with Some d => d | None => 0 end).

(** [.diff().fillna(0).astype('int')]. *)
Definition daily (xs : list count) : list Z :=
  map astype_int (fillna 0 (diff xs)).

(** [Series.cumsum()]. *)
Fixpoint cumsum_from (acc : Z) (xs : list Z) : list Z :=
  match xs with
  | [] => []
  | x :: xs' => (acc + x) :: cumsum_from (acc + x) xs'
  end.

Definition cumsum (xs : list Z) : list Z := cumsum_from 0 xs.

(** ** The collate cell *)

(** The groups of [us_counties.groupby(['state', 'county'])]: the pairs that
    occur in the table, each once, in increasing order.  A row with a
    missing state or county belongs to no group. *)
Definition key_eq_dec (k1 k2 : string * string) : {k1 = k2} + {k1 <> k2}.
Proof. decide equality; apply string_dec. Defined.

Definition key_compare : string * string -> string * string -> comparison :=
  lex_pair String.compare String.compare.

Definition csv_key (r : Csv.row) : option (string * string) :=
  match Csv.state r, Csv.county r with
  | Some s, Some c => Some (s, c)
  | _, _ => None
  end.

Definition present_keys (us_counties : list Csv.row) : list (string * string) :=
  flat_map (fun r => match csv_key r with Some k => [k] | None => [] end)
           us_counties.

Definition groups_keys (us_counties : list Csv.row) : list (string * string) :=
  stable_sort (cmp_leb key_compare) (nodup key_eq_dec (present_keys us_counties)).

(** The rows that belong to a group: state and county are present. *)
Definition keyed (r : Csv.row) : bool :=
  match csv_key r with Some _ => true | None => false end.

(** [column == value] on one cell: false on a missing cell. *)
Definition cell_eqb (cell : option string) (v : string) : bool :=
  match cell with
  | Some s => (s =? v)%string
  | None => false
  end.

(** [(us_counties.state == state) & (us_counties.county == county)]. *)
Definition in_locality (st co : string) (r : Csv.row) : bool :=
  cell_eqb (Csv.state r) st && cell_eqb (Csv.county r) co.

(** Assigning the two new columns to the selected rows; the state and the
    county of a selected row are the ones of the loop. *)
Definition with_daily (st co : string) (r : Csv.row) (dc dd : Z) : row :=
  mk_row (Csv.date r) co st (Csv.fips r) (Csv.cases r) (Csv.deaths r) dc dd.

Fixpoint assign_daily (st co : string) (sel : list Csv.row) (dcs dds : list Z)
  : list row :=
  match sel, dcs, dds with
  | r :: sel', dc :: dcs', dd :: dds' =>
      with_daily st co r dc dd :: assign_daily st co sel' dcs' dds'
  | _, _, _ => []
  end.

(** The body of the loop: the local frame of one (state, county) pair.  The
    selection keeps the rows in the order of the input table. *)
Definition add_daily (st co : string) (sel : list Csv.row) : list row :=
  assign_daily st co sel (daily (map Csv.cases sel)) (daily (map Csv.deaths sel)).

Definition ldf (us_counties : list Csv.row) (st co : string) : list row :=
  add_daily st co (filter (in_locality st co) us_counties).

Definition local_dfs (us_counties : list Csv.row) : list (list row) :=
  map (fun k => ldf us_counties (fst k) (snd k)) (groups_keys us_counties).

(** [sort_values(by=['date', 'state', 'county'])]. *)
Definition sort_key (r : row) : Z * (string * string) :=
  (date r, (state r, county r)).

Definition sort_key_compare
  : Z * (string * string) -> Z * (string * string) -> comparison :=
  lex_pair Z.compare key_compare.

Definition row_compare (r1 r2 : row) : comparison :=
  sort_key_compare (sort_key r1) (sort_key r2).

Definition row_leb : row -> row -> bool := cmp_leb row_compare.

Definition sort_values (df : list row) : list row := stable_sort row_leb df.

(** [pd.concat(frames, ignore_index=True)]: a ValueError ([None]) when
    there is no frame to concatenate. *)
Definition pd_concat (frames : list (list row)) : option (list row) :=
  match frames with
  | [] => None
  | _ => Some (List.concat frames)
  end.

(** [pd.concat(local_dfs, ignore_index=True).sort_values(...).reindex()];
    [reindex()] without arguments changes nothing. *)
Definition full_df (us_counties : list Csv.row) : option (list row) :=
  option_map sort_values (pd_concat (local_dfs us_counties)).

(** The rows of one locality in a derived table. *)
Definition locality (st co : string) (df : list row) : list row :=
  filter (fun r => (state r =? st)%string && (county r =? co)%string) df.

(** A group of input rows is chronological when its dates never decrease
    along the row order of the input table. *)
Definition chronological (g : list Csv.row) : Prop :=
  Sorted Z.le (map Csv.date g).

(** The cells of a group are exact when none is missing and no cell differs
    from the cell of the row before by more than 2^53: then every difference
    is a float and a 64-bit integer of the same value. *)
Fixpoint exact_from (prev : Z) (xs : list count) : bool :=
  match xs with
  | [] => true
  | x :: xs' =>
      match value_of x with
      | Some z => (Z.abs (z - prev) <=? 2 ^ 53) && exact_from z xs'
      | None => false
      end
  end.

Definition exact_steps (xs : list count) : bool :=
  match xs with
  | [] => true
  | x :: xs' =>
      match value_of x with
      | Some z => exact_from z xs'
      | None => false
      end
  end.

(** The cells of a group never decrease: no present cell is smaller than a
    present cell of the row before, nor larger by more than [bound]. *)
Fixpoint rising_from (bound : Z) (prev : count) (xs : list count) : bool :=
  match xs with
  | [] => true
  | x :: xs' =>
      match value_of prev, value_of x with
      | Some a, Some b => (0 <=? b - a) && (b - a <=? bound)
      | _, _ => true
      end && rising_from bound x xs'
  end.

Definition rising (bound : Z) (xs : list count) : bool :=
  match xs with
  | [] => true
  | x :: xs' => rising_from bound x xs'
  end.

(** The value of the first cell of a column (0 for none). *)
Definition first_value (xs : list count) : Z :=
  match xs with
  | x :: _ => match value_of x with Some z => z | None => 0 end
  | [] => 0
  end.

(** Rebuilding a cumulative column from the daily column of a group: the
    running sum of the daily values, started from the group's first
    cumulative value. *)
Definition accumulate (first : Z) (daily_values : list Z) : list Z :=
  map (Z.add first) (cumsum daily_values).

(** ** The transform as section 4.1 of the specification words it

    "For each unique (state, county) pair, sort by date and compute the
    discrete difference": the same pipeline with a sort by date of every
    group before the differences are taken.  It is used only to compare the
    notebook's transform with. *)
Definition sort_by_date (g : list Csv.row) : list Csv.row :=
  stable_sort (fun a b => Csv.date a <=? Csv.date b) g.

Definition ldf_by_date (us_counties : list Csv.row) (st co : string) : list row :=
  add_daily st co (sort_by_date (filter (in_locality st co) us_counties)).

Definition full_df_by_date (us_counties : list Csv.row) : option (list row) :=
  option_map sort_values
    (pd_concat (map (fun k => ldf_by_date us_counties (fst k) (snd k))
                    (groups_keys us_counties))).

(** ** [plot_timeseries]: locality filter and aggregation *)

Inductive column : Type := Cases | Deaths | DailyCases | DailyDeaths.

(** A cell of a column of a derived table; the two daily columns are
    integer columns. *)
Definition get (c : column) (r : row) : count :=
  match c with
  | Cases => cases r
  | Deaths => deaths r
  | DailyCases => Int64 (daily_cases r)
  | DailyDeaths => Int64 (daily_deaths r)
  end.

(** Truth value of an optional string argument: [None] and the empty string
    are false. *)
Definition truthy (s : option string) : bool :=
  match s with
  | Some v => negb (v =? "")%string
  | None => false
  end.

(** [if state: ... if county and not county == '': ...]; the county test is
    nested in the state test. *)
Definition timeseries_filter (df : list row) (st co : option string) : list row :=
  match st with
  | Some s =>
      if truthy st then
        let df1 := filter (fun r => (state r =? s)%string) df in
        match co with
        | Some c =>
            if truthy co && negb (c =? "")%string
            then filter (fun r => (county r =? c)%string) df1
            else df1
        | None => df1
        end
      else df
  | None => df
  end.

Definition sum_Z (xs : list Z) : Z := fold_right Z.add 0 xs.

(** The values of the cells that are not missing. *)
Definition present (vs : list count) : list Z :=
  flat_map (fun c => match value_of c with Some z => [z] | None => [] end) vs.

(** [sum()] of the cells of one group.  An integer column is summed in
    64-bit integers, which wrap around; a float column is summed in floats,
    here from left to right, and its missing cells are skipped. *)
Definition sum_cells (vs : list count) : count :=
  if forallb is_int64 vs
  then Int64 (wrap64 (sum_Z (present vs)))
  else Float64 (fold_left (fun acc x => float64 (acc + x)) (present vs) 0).

(** [df[['date', column]].groupby('date').sum()]: one entry per date that
    occurs, in increasing date order, with the sum of the column over the
    rows of that date. *)
Definition groupby_date_sum (c : column) (df : list row) : list (Z * count) :=
  map (fun d => (d, sum_cells (map (get c) (filter (fun r => date r =? d) df))))
      (stable_sort Z.leb (nodup Z.eq_dec (map date df))).

Definition sort_index (s : list (Z * count)) : list (Z * count) :=
  stable_sort (fun a b => fst a <=? fst b) s.

Definition local_series (df : list row) (c : column) (st co : option string)
  : list (Z * count) :=
  sort_index (groupby_date_sum c (timeseries_filter df st co)).

(** The whole numbers of a series of integer cells. *)
Definition int_values (s : list (Z * count)) : list Z :=
  present (map snd s).

(** ** [make_plots]: locality filter

    The dropdown values are strings; the empty string is the entry for "no
    selection".  The two tests are independent. *)
Definition make_plots_filter (full : list row) (st co : string) : list row :=
  let df1 := if negb (st =? "")%string
             then filter (fun r => (state r =? st)%string) full
             else full in
  if negb (co =? "")%string
  then filter (fun r => (county r =? co)%string) df1
  else df1.

(** ** [plot_daily_cumulative_summary]: locality filter and aggregation

    [if state: ... if county: ...]; the county test is the plain truth
    value of the argument here. *)
Definition summary_filter (df : list row) (st co : option string) : list row :=
  match st with
  | Some s =>
      if truthy st then
        let df1 := filter (fun r => (state r =? s)%string) df in
        match co with
        | Some c =>
            if truthy co
            then filter (fun r => (county r =? c)%string) df1
            else df1
        | None => df1
        end
      else df
  | None => df
  end.

(** [df[['date', 'cases', 'deaths']].groupby('date').sum()]: the two plotted
    columns of [cum_sum_df]. *)
Definition cum_sum_df (df : list row) (st co : option string)
  : list (Z * count) * list (Z * count) :=
  (groupby_date_sum Cases (summary_filter df st co),
   groupby_date_sum Deaths (summary_filter df st co)).

(** ** [make_plots]: title, aggregation and the recent window *)

(** [if state and county: ... elif state: ... else: "US"]. *)
Definition title_locality (st co : string) : string :=
  if negb (st =? "")%string && negb (co =? "")%string
  then String.append co (String.append " County, " st)
  else if negb (st =? "")%string then st else "US"%string.

(** Grouping any table by an integer key and summing a column: one entry
    per key that occurs, in increasing order of the key. *)
Definition groupby_sum {A : Type} (key : A -> Z) (val : A -> count) (l : list A)
  : list (Z * count) :=
  map (fun d => (d, sum_cells (map val (filter (fun r => key r =? d) l))))
      (stable_sort Z.leb (nodup Z.eq_dec (map key l))).

(** A row of [locality_df] after [groupby(['date']).agg(sum).reset_index()]:
    the date and the sums of the four count columns.  (The float column CFR
    that [make_plots] adds to this table is not part of the model.) *)
Record date_row : Type := mk_date_row {
  on_date : Z;
  sum_cases : count;
  sum_deaths : count;
  sum_daily_cases : count;
  sum_daily_deaths : count
}.

Definition date_row_get (c : column) (r : date_row) : count :=
  match c with
  | Cases => sum_cases r
  | Deaths => sum_deaths r
  | DailyCases => sum_daily_cases r
  | DailyDeaths => sum_daily_deaths r
  end.

Definition locality_df (full : list row) (st co : string) : list date_row :=
  let sel := make_plots_filter full st co in
  map (fun d =>
         let g := filter (fun r => date r =? d) sel in
         mk_date_row d (sum_cells (map cases g)) (sum_cells (map deaths g))
                     (sum_cells (map (get DailyCases) g))
                     (sum_cells (map (get DailyDeaths) g)))
      (stable_sort Z.leb (nodup Z.eq_dec (map date sel))).

(** [plot_timeseries(locality_df, column=...)]: no state is passed, so the
    whole of [locality_df] is grouped by date once more. *)
Definition make_plots_series (full : list row) (st co : string) (c : column)
  : list (Z * count) :=
  sort_index (groupby_sum on_date (date_row_get c) (locality_df full st co)).

Definition RECENT_DAYS : Z := 14.

(** The rows behind the heatmaps, computed under [if state != '':].  Dates
    count days, so that taking [RECENT_DAYS] away from a date goes back
    that many days.  [state_df[-1:]['date']] holds the date of the last row
    of the state; for a state without rows there is no such date and
    [start_time.iloc[0]] has no value ([None]). *)
Definition state_df (full : list row) (st : string) : list row :=
  filter (fun r => (state r =? st)%string) full.

Definition recent_rows (full : list row) (st : string) : option (list row) :=
  match rev (state_df full st) with
  | [] => None
  | r :: _ =>
      Some (filter (fun x => date r - RECENT_DAYS <=? date x) (state_df full st))
  end.

(** ** [plot_timeseries]: the anomaly mask

    Residuals, threshold, mean and standard deviation are 64-bit floats and
    the mask is computed in float arithmetic.  How pandas adds up a series
    is not the notebook's code: [lib_mean] and [lib_std] stand for its
    reductions of a series of at least one, resp. two values. *)
Module Anomaly.
Import Floats.
Local Open Scope float_scope.

(** A series: the date index and the value of every point. *)
Definition series : Type := list (Z * float).

Section Mask.
Variables lib_mean lib_std : list float -> float.

(** [Series.mean()]: NaN on an empty series. *)
Definition mean (xs : list float) : float :=
  match xs with
  | [] => nan
  | _ => lib_mean xs
  end.

(** [Series.std()]: the sample standard deviation (one degree of freedom
    removed); NaN when there are fewer than two values. *)
Definition std (xs : list float) : float :=
  match xs with
  | [] | [_] => nan
  | _ => lib_std xs
  end.

(** [abs(resid - resid.mean()) >= anomaly_threshold * resid.std()]; a
    comparison with NaN is false. *)
Definition anomaly_mask (anomaly_threshold : float) (resid : list float) : list bool :=
  map (fun r => PrimFloat.leb (anomaly_threshold * std resid) (abs (r - mean resid)))
      resid.

(** Selection of a series by a boolean mask. *)
Definition select (s : series) (mask : list bool) : series :=
  map fst (filter snd (combine s mask)).

(** [seasonal.resid[...]]: the flagged points. *)
Definition anomalies (anomaly_threshold : float) (resid : series) : series :=
  select resid (anomaly_mask anomaly_threshold (map snd resid)).

(** The keyword argument [anomaly_threshold=3]. *)
Definition anomaly_threshold_default : float := 3.

Definition plot_anomalies (anomaly_threshold : option float) (resid : series) : series :=
  anomalies (match anomaly_threshold with
             | Some t => t
             | None => anomaly_threshold_default
             end) resid.

(** The deviation of a residual from the mean, measured against a multiple
    of the standard deviation: strictly more, as the specification words
    the rule, and at least. *)
Definition deviates_more (t : float) (resid : list float) (r : float) : Prop :=
  PrimFloat.ltb (t * std resid) (abs (r - mean resid)) = true.

Definition deviates_at_least (t : float) (resid : list float) (r : float) : Prop :=
  PrimFloat.leb (t * std resid) (abs (r - mean resid)) = true.
End Mask.

(** Reductions that add from left to right, for the examples. *)
Definition seq_sum (xs : list float) : float := fold_left PrimFloat.add xs 0.

Definition seq_count (xs : list float) : float :=
  fold_left (fun n _ => n + 1) xs 0.

Definition seq_mean (xs : list float) : float := seq_sum xs / seq_count xs.

Definition seq_std (xs : list float) : float :=
  let m := seq_mean xs in
  sqrt (seq_sum (map (fun x => (x - m) * (x - m)) xs) / (seq_count xs - 1)).

(** The residual series of a locality without any movement. *)
Definition flat_resid : series := [(1%Z, 0); (2%Z, 0); (3%Z, 0)].

(** A residual series with one outlier among ten quiet days. *)
Definition spike_resid : series :=
  [(1%Z, 0); (2%Z, 0); (3%Z, 0); (4%Z, 0); (5%Z, 0); (6%Z, 11);
   (7%Z, 0); (8%Z, 0); (9%Z, 0); (10%Z, 0); (11%Z, 0)].

(** A residual series whose sum is beyond the largest float. *)
Definition huge_resid : series :=
  [(1%Z, 0x1p+1023); (2%Z, 0x1p+1023); (3%Z, 0x1p+1023)].
End Anomaly.

(** ** [plot_timeseries]: the anomaly markers

    The markers are drawn at the dates of the flagged residuals, at the
    height [local_series.loc[anomalies.index]] of the plotted series; a date
    that is not in the index of the series is a KeyError ([None]).  The
    index of a grouped series holds every date once. *)
Module Markers.
Section Loc.
Context {V : Type}.

Fixpoint loc1 (s : list (Z * V)) (d : Z) : option V :=
  match s with
  | [] => None
  | (d', v) :: s' => if d' =? d then Some v else loc1 s' d
  end.

Fixpoint loc (s : list (Z * V)) (ds : list Z) : option (list (Z * V)) :=
  match ds with
  | [] => Some []
  | d :: ds' =>
      match loc1 s d, loc s ds' with
      | Some v, Some rest => Some ((d, v) :: rest)
      | _, _ => None
      end
  end.

Definition markers (lib_mean lib_std : list PrimFloat.float -> PrimFloat.float)
    (local_series : list (Z * V)) (anomaly_threshold : PrimFloat.float)
    (resid : Anomaly.series) : option (list (Z * V)) :=
  loc local_series
      (map fst (Anomaly.anomalies lib_mean lib_std anomaly_threshold resid)).
End Loc.
End Markers.

(** ** The sort key of an input row

    The key of [sort_values(by=['date', 'state', 'county'])], read on a row
    of the input table whose state and county are present. *)
Definition csv_sort_key (r : Csv.row) : Z * (string * string) :=
  (Csv.date r,
   match csv_key r with Some k => k | None => (""%string, ""%string) end).

Definition csv_row_leb (r1 r2 : Csv.row) : bool :=
  cmp_leb sort_key_compare (csv_sort_key r1) (csv_sort_key r2).

(** The rows of a table that carry a given sort key. *)
Definition has_sort_key {A : Type} (key : A -> Z * (string * string))
    (k : Z * (string * string)) (x : A) : bool :=
  match sort_key_compare (key x) k with Eq => true | _ => false end.

(** ** The dropdowns

    [sorted(full_df.state.unique())] with the empty entry appended, and the
    counties with the empty entry added before sorting.  The values that
    occur are taken once each; their order before the sort does not show in
    the result. *)
Definition string_leb : string -> string -> bool := cmp_leb String.compare.

Definition state_options (full : list row) : list string :=
  stable_sort string_leb (nodup string_dec (map state full)) ++ [""%string].

Definition county_options (full : list row) : list string :=
  stable_sort string_leb (nodup string_dec (map county full) ++ [""%string]).

(** ** Example tables *)

Definition snohomish (d c x : Z) : Csv.row :=
  Csv.mk d (Some "Snohomish"%string) (Some "Washington"%string) (Some 53061)
         (Int64 c) (Int64 x).

Definition cook (d c x : Z) : Csv.row :=
  Csv.mk d (Some "Cook"%string) (Some "Illinois"%string) (Some 17031)
         (Int64 c) (Int64 x).

Definition snohomish_row (d c x dc dd : Z) : row :=
  mk_row d "Snohomish" "Washington" (Some 53061) (Int64 c) (Int64 x) dc dd.

Definition cook_row (d c x dc dd : Z) : row :=
  mk_row d "Cook" "Illinois" (Some 17031) (Int64 c) (Int64 x) dc dd.

(** Two localities, every one in date order. *)
Definition table_in_date_order : list Csv.row :=
  [snohomish 1 1 0; snohomish 2 1 0; cook 2 1 0; snohomish 3 4 1; cook 3 2 0].

Definition full_in_date_order : list row :=
  [snohomish_row 1 1 0 0 0; cook_row 2 1 0 0 0; snohomish_row 2 1 0 0 0;
   cook_row 3 2 0 1 0; snohomish_row 3 4 1 3 1].

(** One locality whose later day comes first in the table. *)
Definition table_out_of_date_order : list Csv.row :=
  [snohomish 2 15 1; snohomish 1 10 0].

(** One locality, three consecutive days with cumulative cases 10, 15 and
    20, among the rows of another locality: in date order, and with the
    latest day first. *)
Definition table_three_days : list Csv.row :=
  [cook 1 3 0; snohomish 1 10 0; snohomish 2 15 0; cook 2 4 0; snohomish 3 20 1].

Definition table_three_days_reversed : list Csv.row :=
  [snohomish 3 20 1; snohomish 2 15 0; snohomish 1 10 0].

(** A table with a record whose county is blank. *)
Definition table_blank_county : list Csv.row :=
  [snohomish 1 1 0;
   Csv.mk 1 None (Some "Washington"%string) None (Int64 2) (Int64 0)].

(** One locality in date order whose deaths are blank on the second day (the
    deaths column is a float column then). *)
Definition table_blank_deaths : list Csv.row :=
  [Csv.mk 1 (Some "Ponce"%string) (Some "Puerto Rico"%string) (Some 72113)
          (Int64 10) (Float64 1);
   Csv.mk 2 (Some "Ponce"%string) (Some "Puerto Rico"%string) (Some 72113)
          (Int64 15) NaN;
   Csv.mk 3 (Some "Ponce"%string) (Some "Puerto Rico"%string) (Some 72113)
          (Int64 20) (Float64 4)].

(** One locality in date order whose count grows by 2^53 + 1 in a day. *)
Definition table_large_step : list Csv.row :=
  [snohomish 1 0 0; snohomish 2 (2 ^ 53 + 1) 0].

(** Cook county reported on days 1 to 20, Snohomish on day 20 only. *)
Definition table_twenty_days : list Csv.row :=
  map (fun d => cook d (10 * d) d) [1; 2; 3; 4; 5; 6; 7; 8; 9; 10;
                                     11; 12; 13; 14; 15; 16; 17; 18; 19; 20]
  ++ [snohomish 20 7 1].

(** [full_df] of [table_twenty_days]. *)
Definition full_twenty_days : list row :=
  sort_values (List.concat (local_dfs table_twenty_days)).

(** * Properties *)

(** ** Three-way comparisons *)

#[export] Instance Z_TotalCmp : TotalCmp Z.compare.
Proof.
  split.
  - apply Z.compare_refl.
  - apply Z.compare_eq.
  - intros x y. apply Z.compare_antisym.
  - intros x y z. rewrite !Z.compare_lt_iff. lia.
Qed.

#[export] Instance ascii_TotalCmp : TotalCmp Ascii.compare.
Proof.
  split; unfold Ascii.compare.
  - intros x. apply N.compare_refl.
  - intros x y H. apply N.compare_eq in H.
    rewrite <- (ascii_N_embedding x), <- (ascii_N_embedding y). now f_equal.
  - intros x y. apply N.compare_antisym.
  - intros x y z. rewrite !N.compare_lt_iff. lia.
Qed.

Lemma string_compare_refl (s : string) : String.compare s s = Eq.
Proof.
  induction s as [|a s IH]; simpl; [reflexivity|].
  now rewrite (cmp_refl (cmp := Ascii.compare)).
Qed.

Lemma string_compare_eq (s1 s2 : string) : String.compare s1 s2 = Eq -> s1 = s2.
Proof.
  revert s2. induction s1 as [|a s1 IH]; intros [|b s2]; simpl; try discriminate.
  - reflexivity.
  - destruct (Ascii.compare a b) eqn:E; try discriminate.
    intros H. apply cmp_eq in E. apply IH in H. now subst.
Qed.

Lemma string_compare_lt_trans (s1 s2 s3 : string) :
  String.compare s1 s2 = Lt -> String.compare s2 s3 = Lt -> String.compare s1 s3 = Lt.
Proof.
  revert s2 s3.
  induction s1 as [|a s1 IH]; intros [|b s2] [|c s3]; simpl; try discriminate; auto.
  destruct (Ascii.compare a b) eqn:Eab; try discriminate;
    destruct (Ascii.compare b c) eqn:Ebc; try discriminate; intros H1 H2.
  - apply cmp_eq in Eab, Ebc. subst. rewrite cmp_refl. eauto.
  - apply cmp_eq in Eab. subst. now rewrite Ebc.
  - apply cmp_eq in Ebc. subst. now rewrite Eab.
  - now rewrite (cmp_lt_trans _ _ _ Eab Ebc).
Qed.

#[export] Instance string_TotalCmp : TotalCmp String.compare.
Proof.
  split.
  - apply string_compare_refl.
  - apply string_compare_eq.
  - intros x y. apply String.compare_antisym.
  - apply string_compare_lt_trans.
Qed.

Section Lex.
Context {A B : Type} (ca : A -> A -> comparison) (cb : B -> B -> comparison).
Context `{!TotalCmp ca} `{!TotalCmp cb}.

#[export] Instance lex_TotalCmp : TotalCmp (lex_pair ca cb).
Proof.
  split; unfold lex_pair, lex.
  - intros [a b]; simpl. now rewrite !cmp_refl.
  - intros [a b] [a' b']; simpl.
    destruct (ca a a') eqn:E; try discriminate.
    intros H. apply cmp_eq in E, H. now subst.
  - intros [a b] [a' b']; simpl.
    rewrite (cmp_antisym (cmp := ca) a a').
    destruct (ca a a'); simpl; auto. apply cmp_antisym.
  - intros [a b] [a' b'] [a'' b'']; simpl.
    destruct (ca a a') eqn:E1; try discriminate;
      destruct (ca a' a'') eqn:E2; try discriminate; intros H1 H2.
    + apply cmp_eq in E1, E2. subst. rewrite cmp_refl. eauto using cmp_lt_trans.
    + apply cmp_eq in E1. subst. now rewrite E2.
    + apply cmp_eq in E2. subst. now rewrite E1.
    + now rewrite (cmp_lt_trans _ _ _ E1 E2).
Qed.
End Lex.

#[export] Instance key_TotalCmp : TotalCmp key_compare.
Proof. exact (lex_TotalCmp String.compare String.compare). Qed.

#[export] Instance sort_key_TotalCmp : TotalCmp sort_key_compare.
Proof. exact (lex_TotalCmp Z.compare key_compare). Qed.

Section CmpLeb.
Context {A : Type} (cmp : A -> A -> comparison) `{!TotalCmp cmp}.

Lemma cmp_leb_total (x y : A) : cmp_leb cmp x y = false -> cmp_leb cmp y x = true.
Proof.
  unfold cmp_leb. rewrite (cmp_antisym x y). now destruct (cmp x y).
Qed.

Lemma cmp_leb_trans (x y z : A) :
  cmp_leb cmp x y = true -> cmp_leb cmp y z = true -> cmp_leb cmp x z = true.
Proof.
  unfold cmp_leb.
  destruct (cmp x y) eqn:E1; try discriminate;
    destruct (cmp y z) eqn:E2; try discriminate; intros _ _.
  - apply cmp_eq in E1, E2. subst. now rewrite cmp_refl.
  - apply cmp_eq in E1. subst. now rewrite E2.
  - apply cmp_eq in E2. subst. now rewrite E1.
  - now rewrite (cmp_lt_trans _ _ _ E1 E2).
Qed.
End CmpLeb.

Lemma row_leb_total (r1 r2 : row) : row_leb r1 r2 = false -> row_leb r2 r1 = true.
Proof. apply (cmp_leb_total sort_key_compare). Qed.

Lemma row_leb_trans (r1 r2 r3 : row) :
  row_leb r1 r2 = true -> row_leb r2 r3 = true -> row_leb r1 r3 = true.
Proof. apply (cmp_leb_trans sort_key_compare). Qed.

(** ** The stable sort *)

Section StableSortFacts.
Context {A : Type} (leb : A -> A -> bool).

Lemma insert_perm (x : A) (l : list A) : Permutation (insert leb x l) (x :: l).
Proof.
  induction l as [|y l IH]; simpl; [reflexivity|].
  destruct (leb x y); [reflexivity|].
  rewrite IH. apply perm_swap.
Qed.

Lemma stable_sort_perm (l : list A) : Permutation (stable_sort leb l) l.
Proof.
  induction l as [|x l IH]; simpl; [reflexivity|].
  rewrite insert_perm. now apply perm_skip.
Qed.

(** A list that is already in order is left as it is. *)
Lemma stable_sort_sorted_id (l : list A) :
  Sorted (fun x y => leb x y = true) l -> stable_sort leb l = l.
Proof.
  induction 1 as [|x l Hs IH Hd]; simpl; [reflexivity|].
  rewrite IH. destruct Hd as [|y l Hxy]; simpl; [reflexivity|].
  now rewrite Hxy.
Qed.

Hypothesis leb_total : forall x y, leb x y = false -> leb y x = true.
Hypothesis leb_trans :
  forall x y z, leb x y = true -> leb y z = true -> leb x z = true.

Lemma insert_sorted (x : A) (l : list A) :
  StronglySorted (fun x y => leb x y = true) l ->
  StronglySorted (fun x y => leb x y = true) (insert leb x l).
Proof.
  induction 1 as [|y l Hs IH Hall]; simpl.
  - repeat constructor.
  - destruct (leb x y) eqn:E.
    + constructor; [now constructor|].
      constructor; [exact E|].
      eapply Forall_impl; [|exact Hall]. intros z Hz. eapply leb_trans; eauto.
    + constructor; [exact IH|].
      apply (Permutation_Forall (x := x :: l)).
      * symmetry. apply insert_perm.
      * constructor; [now apply leb_total|exact Hall].
Qed.

Lemma stable_sort_sorted (l : list A) :
  StronglySorted (fun x y => leb x y = true) (stable_sort leb l).
Proof.
  induction l as [|x l IH]; simpl; [constructor|]. now apply insert_sorted.
Qed.

(** Stability: selecting rows commutes with sorting, so the selected rows
    come out in the order a sort of the selection alone gives them. *)
Lemma filter_insert (P : A -> bool) (x : A) (l : list A) :
  StronglySorted (fun x y => leb x y = true) l ->
  filter P (insert leb x l)
  = if P x then insert leb x (filter P l) else filter P l.
Proof.
  induction 1 as [|y l Hs IH Hall]; simpl.
  - now destruct (P x).
  - destruct (leb x y) eqn:E; simpl.
    + destruct (P x) eqn:Px; [|reflexivity].
      destruct (P y) eqn:Py; simpl; [now rewrite E|].
      assert (Hx : Forall (fun z => leb x z = true) (filter P l)).
      { apply Forall_forall. intros z Hz. apply filter_In in Hz.
        rewrite Forall_forall in Hall. eapply leb_trans; [exact E|]. now apply Hall. }
      destruct (filter P l) as [|z fl]; simpl; [reflexivity|].
      inversion Hx as [|? ? Hxz _]; subst. now rewrite Hxz.
    + rewrite IH. destruct (P y) eqn:Py; destruct (P x) eqn:Px; simpl;
        rewrite ?E; reflexivity.
Qed.

Lemma filter_stable_sort (P : A -> bool) (l : list A) :
  filter P (stable_sort leb l) = stable_sort leb (filter P l).
Proof.
  induction l as [|x l IH]; simpl; [reflexivity|].
  rewrite filter_insert by apply stable_sort_sorted.
  rewrite IH. now destruct (P x).
Qed.
End StableSortFacts.

Example float64_examples :
  float64 (2 ^ 53 + 1) = 2 ^ 53
  /\ float64 (2 ^ 53 + 3) = 2 ^ 53 + 4
  /\ float64 (2 ^ 63 - 1) = 2 ^ 63
  /\ float64 (- (2 ^ 53 + 1)) = - 2 ^ 53
  /\ float64 (2 ^ 62 + 2 ^ 9) = 2 ^ 62
  /\ float64 (2 ^ 62 + 2 ^ 9 + 1) = 2 ^ 62 + 2 ^ 10
  /\ float64 12345 = 12345.
Proof. repeat split. Qed.

Example full_df_in_date_order : full_df table_in_date_order = Some full_in_date_order.
Proof. reflexivity. Qed.

Example full_df_empty : full_df [] = None.
Proof. reflexivity. Qed.

(** ** Numbers *)

Lemma float64_small (x : Z) : Z.abs x <= 2 ^ 53 -> float64 x = x.
Proof.
  intros H. unfold float64. destruct (Z.ltb_spec (Z.abs x) (2 ^ 53)) as [_|Hge];
    [reflexivity|].
  assert (Hx : x = 2 ^ 53 \/ x = - 2 ^ 53) by lia.
  destruct Hx as [-> | ->]; reflexivity.
Qed.

Lemma wrap64_small (x : Z) : int64_min <= x <= int64_max -> wrap64 x = x.
Proof.
  unfold wrap64, int64_min, int64_max. intros H.
  rewrite Z.mod_small by lia. lia.
Qed.

Lemma astype_int_small (x : Z) : int64_min <= x <= int64_max -> astype_int x = x.
Proof.
  unfold astype_int. intros [H1 H2].
  apply Z.leb_le in H1, H2. now rewrite H1, H2.
Qed.

(** A float is not further from zero than twice the number it rounds, and
    has its sign. *)
Lemma float64_nonneg (x : Z) : 0 <= x -> 0 <= float64 x <= 2 * x.
Proof.
  intros Hx. unfold float64. rewrite (Z.abs_eq x Hx).
  destruct (Z.ltb_spec x (2 ^ 53)) as [_|Hge]; [lia|].
  assert (Hpos : 0 < x) by lia. rewrite (Z.sgn_pos x Hpos).
  set (e := Z.log2 x - 52).
  assert (Hlog : 53 <= Z.log2 x) by (apply Z.log2_le_pow2; lia).
  assert (He : 0 < 2 ^ e) by (apply Z.pow_pos_nonneg; lia).
  assert (Hle : 2 ^ e <= x).
  { transitivity (2 ^ Z.log2 x); [|apply Z.log2_spec; lia].
    apply Z.pow_le_mono_r; lia. }
  pose proof (Z.mul_div_le x (2 ^ e) He) as Hq.
  pose proof (Z.div_pos x (2 ^ e) Hx He) as Hq0.
  destruct (x mod 2 ^ e <? 2 ^ (e - 1)); [nia|].
  destruct (2 ^ (e - 1) <? x mod 2 ^ e); [nia|].
  destruct (Z.even (x / 2 ^ e)); nia.
Qed.

(** Where the two cells are present and differ by at most 2^53, the entry
    of the daily column is their difference. *)
Lemma sub_count_exact (x prev : count) (a b : Z) :
  value_of prev = Some a -> value_of x = Some b -> Z.abs (b - a) <= 2 ^ 53 ->
  sub_count x prev = Some (b - a) /\ astype_int (b - a) = b - a.
Proof.
  intros Hp Hx Hd.
  assert (Hr : int64_min <= b - a <= int64_max)
    by (unfold int64_min, int64_max; lia).
  split; [|now apply astype_int_small].
  destruct x, prev; cbn in Hp, Hx; try discriminate;
    injection Hp as <-; injection Hx as <-; cbn [sub_count];
    rewrite ?(wrap64_small _ Hr), (float64_small _ Hd); reflexivity.
Qed.

Lemma sub_count_missing (x prev : count) :
  value_of prev = None \/ value_of x = None -> sub_count x prev = None.
Proof. destruct x, prev; cbn; intros [H|H]; try discriminate; reflexivity. Qed.

(** Where a present cell is not below the present cell before it, and not
    more than 2^61 above, the entry of the daily column is not negative. *)
Lemma sub_count_rising (x prev : count) (a b : Z) :
  value_of prev = Some a -> value_of x = Some b -> 0 <= b - a <= 2 ^ 61 ->
  exists d, sub_count x prev = Some d /\ 0 <= astype_int d.
Proof.
  intros Hp Hx Hd.
  assert (Hr : int64_min <= b - a <= int64_max)
    by (unfold int64_min, int64_max; lia).
  pose proof (float64_nonneg (b - a) (proj1 Hd)) as Hf.
  exists (float64 (b - a)). split.
  - destruct x, prev; cbn in Hp, Hx; try discriminate;
      injection Hp as <-; injection Hx as <-; cbn [sub_count];
      rewrite ?(wrap64_small _ Hr); reflexivity.
  - rewrite astype_int_small; [lia|]. unfold int64_min, int64_max. lia.
Qed.

(** ** Local frames *)

Lemma diff_from_length (prev : count) (xs : list count) :
  List.length (diff_from prev xs) = List.length xs.
Proof. revert prev. induction xs; intros; simpl; auto. Qed.

Lemma daily_length (xs : list count) : List.length (daily xs) = List.length xs.
Proof.
  unfold daily, fillna. rewrite !length_map.
  destruct xs; simpl; auto using diff_from_length.
Qed.

Lemma in_locality_true (st co : string) (r : Csv.row) :
  in_locality st co r = true <-> csv_key r = Some (st, co).
Proof.
  unfold in_locality, csv_key, cell_eqb.
  destruct (Csv.state r) as [s|], (Csv.county r) as [c|]; cbn;
    rewrite ?andb_true_iff, ?String.eqb_eq;
    split; try discriminate; try (intros []; discriminate).
  - intros [-> ->]. reflexivity.
  - intros [= -> ->]. auto.
Qed.

Lemma original_with_daily (st co : string) (r : Csv.row) (dc dd : Z) :
  in_locality st co r = true -> original (with_daily st co r dc dd) = r.
Proof.
  intros H. apply in_locality_true in H. unfold csv_key in H.
  destruct r as [d c s f x y]. cbn in *.
  destruct s, c; try discriminate. now injection H as -> ->.
Qed.

Lemma assign_daily_columns (st co : string) (sel : list Csv.row) (dcs dds : list Z) :
  List.length dcs = List.length sel -> List.length dds = List.length sel ->
  map date (assign_daily st co sel dcs dds) = map Csv.date sel
  /\ map cases (assign_daily st co sel dcs dds) = map Csv.cases sel
  /\ map deaths (assign_daily st co sel dcs dds) = map Csv.deaths sel
  /\ map daily_cases (assign_daily st co sel dcs dds) = dcs
  /\ map daily_deaths (assign_daily st co sel dcs dds) = dds
  /\ Forall (fun r => state r = st /\ county r = co) (assign_daily st co sel dcs dds)
  /\ (Forall (fun r => in_locality st co r = true) sel ->
      map original (assign_daily st co sel dcs dds) = sel).
Proof.
  revert dcs dds.
  induction sel as [|r sel IH]; intros [|dc dcs] [|dd dds]; simpl; try discriminate.
  - intros _ _. repeat split; auto.
  - intros H1 H2. injection H1 as H1. injection H2 as H2.
    destruct (IH dcs dds H1 H2) as (Hd & Hc & Hx & Hdc & Hdd & Hk & Ho).
    repeat split; try congruence.
    + constructor; [now split|exact Hk].
    + intros Hall. inversion Hall as [|? ? Hr Hall']; subst.
      rewrite original_with_daily by exact Hr. f_equal. now apply Ho.
Qed.

Lemma add_daily_columns (st co : string) (sel : list Csv.row) :
  map date (add_daily st co sel) = map Csv.date sel
  /\ map cases (add_daily st co sel) = map Csv.cases sel
  /\ map deaths (add_daily st co sel) = map Csv.deaths sel
  /\ map daily_cases (add_daily st co sel) = daily (map Csv.cases sel)
  /\ map daily_deaths (add_daily st co sel) = daily (map Csv.deaths sel)
  /\ Forall (fun r => state r = st /\ county r = co) (add_daily st co sel)
  /\ (Forall (fun r => in_locality st co r = true) sel ->
      map original (add_daily st co sel) = sel).
Proof.
  apply assign_daily_columns; rewrite daily_length; apply length_map.
Qed.

Lemma add_daily_date (st co : string) (sel : list Csv.row) :
  map date (add_daily st co sel) = map Csv.date sel.
Proof. apply add_daily_columns. Qed.

Lemma add_daily_cases (st co : string) (sel : list Csv.row) :
  map cases (add_daily st co sel) = map Csv.cases sel.
Proof. apply add_daily_columns. Qed.

Lemma add_daily_deaths (st co : string) (sel : list Csv.row) :
  map deaths (add_daily st co sel) = map Csv.deaths sel.
Proof. apply add_daily_columns. Qed.

Lemma add_daily_daily_cases (st co : string) (sel : list Csv.row) :
  map daily_cases (add_daily st co sel) = daily (map Csv.cases sel).
Proof. apply add_daily_columns. Qed.

Lemma add_daily_daily_deaths (st co : string) (sel : list Csv.row) :
  map daily_deaths (add_daily st co sel) = daily (map Csv.deaths sel).
Proof. apply add_daily_columns. Qed.

Lemma add_daily_key (st co : string) (sel : list Csv.row) :
  Forall (fun r => state r = st /\ county r = co) (add_daily st co sel).
Proof. apply add_daily_columns. Qed.

Lemma add_daily_original (st co : string) (sel : list Csv.row) :
  Forall (fun r => in_locality st co r = true) sel ->
  map original (add_daily st co sel) = sel.
Proof. apply add_daily_columns. Qed.

Lemma filter_Forall {A : Type} (P : A -> bool) (l : list A) :
  Forall (fun x => P x = true) (filter P l).
Proof. apply Forall_forall. intros x Hx. now apply filter_In in Hx. Qed.

(** A local frame holds the rows of its locality in the row order of the
    input table. *)
Lemma ldf_original (t : list Csv.row) (st co : string) :
  map original (ldf t st co) = filter (in_locality st co) t.
Proof. apply add_daily_original, filter_Forall. Qed.

Lemma ldf_rows_key (t : list Csv.row) (st co : string) :
  Forall (fun r => state r = st /\ county r = co) (ldf t st co).
Proof. apply add_daily_key. Qed.

(** The first row of a local frame carries zero in both daily columns. *)
Lemma add_daily_head (st co : string) (r : Csv.row) (sel : list Csv.row) :
  exists rest, add_daily st co (r :: sel) = with_daily st co r 0 0 :: rest.
Proof. unfold add_daily, daily. simpl. eauto. Qed.

Lemma locality_all (st co : string) (df : list row) :
  Forall (fun r => state r = st /\ county r = co) df -> locality st co df = df.
Proof.
  unfold locality.
  induction 1 as [|r df [Hs Hc] _ IH]; cbn [filter]; [reflexivity|].
  rewrite IH. subst. now rewrite !String.eqb_refl.
Qed.

Lemma locality_none (st co st' co' : string) (df : list row) :
  (st', co') <> (st, co) ->
  Forall (fun r => state r = st' /\ county r = co') df -> locality st co df = [].
Proof.
  unfold locality.
  intros Hne. induction 1 as [|r df [Hs Hc] _ IH]; cbn [filter]; [reflexivity|].
  rewrite IH. subst.
  destruct (state r =? st)%string eqn:E1; [|reflexivity].
  destruct (county r =? co)%string eqn:E2; [|reflexivity].
  apply String.eqb_eq in E1, E2. congruence.
Qed.

Lemma locality_app (st co : string) (df1 df2 : list row) :
  locality st co (df1 ++ df2) = locality st co df1 ++ locality st co df2.
Proof. apply filter_app. Qed.

(** In the concatenation of the local frames of distinct keys, the rows of
    a locality are the rows of its own local frame. *)
Lemma locality_concat (t : list Csv.row) (st co : string) (ks : list (string * string)) :
  NoDup ks ->
  locality st co (List.concat (map (fun k => ldf t (fst k) (snd k)) ks))
  = if in_dec key_eq_dec (st, co) ks then ldf t st co else [].
Proof.
  induction 1 as [|k ks Hk Hnd IH]; [reflexivity|].
  cbn [map List.concat]. rewrite locality_app, IH.
  destruct (key_eq_dec k (st, co)) as [->|Hne].
  - cbn [fst snd]. rewrite (locality_all st co) by apply ldf_rows_key.
    destruct (in_dec key_eq_dec (st, co) ks) as [Hin|_]; [contradiction|].
    destruct (in_dec key_eq_dec (st, co) ((st, co) :: ks)) as [_|Hn].
    + apply app_nil_r.
    + exfalso. apply Hn. now left.
  - rewrite (locality_none st co (fst k) (snd k)).
    + cbn [app].
      destruct (in_dec key_eq_dec (st, co) ks) as [Hin|Hn];
        destruct (in_dec key_eq_dec (st, co) (k :: ks)) as [Hin'|Hn'];
        try reflexivity; exfalso.
      * apply Hn'. now right.
      * destruct Hin'; contradiction.
    + now destruct k.
    + apply ldf_rows_key.
Qed.

(** ** The groups *)

Lemma present_keys_In (t : list Csv.row) (k : string * string) :
  In k (present_keys t) <-> exists r, In r t /\ csv_key r = Some k.
Proof.
  unfold present_keys. rewrite in_flat_map. split.
  - intros (r & Hr & Hk). exists r. split; [exact Hr|].
    destruct (csv_key r) as [k'|]; [|contradiction].
    destruct Hk as [->|[]]. reflexivity.
  - intros (r & Hr & Hk). exists r. split; [exact Hr|]. rewrite Hk. now left.
Qed.

Lemma groups_keys_In (t : list Csv.row) (k : string * string) :
  In k (groups_keys t) <-> exists r, In r t /\ csv_key r = Some k.
Proof.
  unfold groups_keys. rewrite <- present_keys_In. split.
  - intros H. apply (Permutation_in _ (stable_sort_perm _ _)) in H.
    now apply nodup_In in H.
  - intros H. apply (Permutation_in _ (Permutation_sym (stable_sort_perm _ _))).
    now apply nodup_In.
Qed.

Lemma groups_keys_NoDup (t : list Csv.row) : NoDup (groups_keys t).
Proof.
  unfold groups_keys.
  eapply Permutation_NoDup; [symmetry; apply stable_sort_perm|]. apply NoDup_nodup.
Qed.

Lemma filter_nil_iff {A : Type} (P : A -> bool) (l : list A) :
  (forall x, In x l -> P x = false) -> filter P l = [].
Proof.
  induction l as [|x l IH]; intros H; simpl; [reflexivity|].
  rewrite (H x) by now left. apply IH. intros y Hy. apply H. now right.
Qed.

Lemma ldf_absent (t : list Csv.row) (st co : string) :
  ~ In (st, co) (groups_keys t) -> ldf t st co = [].
Proof.
  intros Hn. unfold ldf. rewrite filter_nil_iff; [reflexivity|].
  intros r Hr. destruct (in_locality st co r) eqn:E; [|reflexivity].
  exfalso. apply Hn, groups_keys_In. exists r. split; [exact Hr|].
  now apply in_locality_true.
Qed.

Lemma locality_concat_local_dfs (t : list Csv.row) (st co : string) :
  locality st co (List.concat (local_dfs t)) = ldf t st co.
Proof.
  unfold local_dfs. rewrite locality_concat by apply groups_keys_NoDup.
  destruct (in_dec key_eq_dec (st, co) (groups_keys t)) as [_|Hn]; [reflexivity|].
  now rewrite ldf_absent.
Qed.

(** ** The collated table *)

(** [full_df] has a value exactly when some row has both its state and its
    county, and the value is the sorted concatenation of the local frames. *)
Lemma full_df_Some (t : list Csv.row) (full : list row) :
  full_df t = Some full ->
  full = sort_values (List.concat (local_dfs t)).
Proof.
  unfold full_df, pd_concat. destruct (local_dfs t); [discriminate|].
  now intros [= <-].
Qed.

Lemma full_df_value (t : list Csv.row) (r : Csv.row) :
  In r t -> csv_key r <> None ->
  full_df t = Some (sort_values (List.concat (local_dfs t))).
Proof.
  intros Hr Hk. unfold full_df, pd_concat.
  destruct (local_dfs t) as [|f fs] eqn:E; [|reflexivity].
  exfalso. unfold local_dfs in E. apply map_eq_nil in E.
  destruct (csv_key r) as [k|] eqn:Ek; [|contradiction].
  assert (H : In k (groups_keys t)) by (apply groups_keys_In; eauto).
  rewrite E in H. contradiction.
Qed.

Lemma full_df_of_group (t : list Csv.row) (st co : string) :
  In (st, co) (groups_keys t) ->
  full_df t = Some (sort_values (List.concat (local_dfs t))).
Proof.
  intros H. apply groups_keys_In in H. destruct H as (r & Hr & Hk).
  apply (full_df_value t r Hr). rewrite Hk. discriminate.
Qed.

(** The rows of a locality in [full_df] are the rows of its local frame, in
    the order the final sort gives them. *)
Lemma locality_full_df (t : list Csv.row) (full : list row) (st co : string) :
  full_df t = Some full -> locality st co full = sort_values (ldf t st co).
Proof.
  intros H. rewrite (full_df_Some t full H). unfold sort_values, locality.
  rewrite (filter_stable_sort row_leb row_leb_total row_leb_trans).
  fold (locality st co (List.concat (local_dfs t))).
  now rewrite locality_concat_local_dfs.
Qed.

Lemma locality_full_df_perm (t : list Csv.row) (full : list row) (st co : string) :
  full_df t = Some full -> Permutation (locality st co full) (ldf t st co).
Proof. intros H. rewrite (locality_full_df t full st co H). apply stable_sort_perm. Qed.

Lemma row_leb_same_locality (r1 r2 : row) :
  state r1 = state r2 -> county r1 = county r2 -> date r1 <= date r2 ->
  row_leb r1 r2 = true.
Proof.
  intros Hs Hc Hd.
  unfold row_leb, cmp_leb, row_compare, sort_key_compare, key_compare, lex_pair, sort_key.
  cbn [fst snd]. rewrite Hs, Hc, !string_compare_refl.
  destruct (date r1 ?= date r2) eqn:E; try reflexivity.
  apply Z.compare_gt_iff in E. lia.
Qed.

(** A chronological group is already in the order of the final sort. *)
Lemma chronological_sorted (st co : string) (df : list row) :
  Forall (fun r => state r = st /\ county r = co) df ->
  Sorted Z.le (map date df) ->
  Sorted (fun a b => row_leb a b = true) df.
Proof.
  induction 1 as [|r df [Hs Hc] Hall IH]; intros Hd; [constructor|].
  cbn [map] in Hd. inversion Hd as [|? ? Hd' Hhd]; subst.
  constructor; [now apply IH|].
  destruct Hall as [|r' df [Hs' Hc'] _]; [constructor|].
  constructor. cbn [map] in Hhd. inversion Hhd; subst.
  apply row_leb_same_locality; congruence.
Qed.

Lemma sort_values_chronological (t : list Csv.row) (st co : string) :
  chronological (filter (in_locality st co) t) ->
  sort_values (ldf t st co) = ldf t st co.
Proof.
  intros H. apply stable_sort_sorted_id.
  apply (chronological_sorted st co); [apply ldf_rows_key|].
  unfold ldf. now rewrite add_daily_date.
Qed.

(** The rows of a chronological locality come out of [full_df] as its local
    frame has them. *)
Lemma locality_chronological (t : list Csv.row) (full : list row) (st co : string) :
  full_df t = Some full -> chronological (filter (in_locality st co) t) ->
  locality st co full = ldf t st co.
Proof.
  intros H Hc. rewrite (locality_full_df t full st co H).
  now apply sort_values_chronological.
Qed.

(** The local frames share out the rows of the input table that have a
    state and a county. *)
Lemma concat_groups_skip (r : Csv.row) (t : list Csv.row) (ks : list (string * string)) :
  (forall k, In k ks -> csv_key r <> Some k) ->
  map (fun k => filter (in_locality (fst k) (snd k)) (r :: t)) ks
  = map (fun k => filter (in_locality (fst k) (snd k)) t) ks.
Proof.
  intros Hn. apply map_ext_in. intros [st co] Hk. cbn [fst snd filter].
  destruct (in_locality st co r) eqn:E; [|reflexivity].
  apply in_locality_true in E. exfalso. exact (Hn _ Hk E).
Qed.

Lemma concat_groups_cons (r : Csv.row) (t : list Csv.row)
    (k0 : string * string) (ks : list (string * string)) :
  csv_key r = Some k0 -> NoDup ks -> In k0 ks ->
  Permutation
    (List.concat (map (fun k => filter (in_locality (fst k) (snd k)) (r :: t)) ks))
    (r :: List.concat (map (fun k => filter (in_locality (fst k) (snd k)) t) ks)).
Proof.
  intros Hk0.
  pose proof (concat_groups_skip r t) as Hskip.
  set (F := fun k => filter (in_locality (fst k) (snd k)) (r :: t)) in *.
  set (G := fun k => filter (in_locality (fst k) (snd k)) t) in *.
  induction 1 as [|k ks Hk Hnd IH]; intros Hin; [contradiction|].
  cbn [map List.concat].
  assert (HF : F k = if in_locality (fst k) (snd k) r then r :: G k else G k)
    by reflexivity.
  rewrite HF. clear HF.
  destruct (in_locality (fst k) (snd k) r) eqn:E.
  - apply in_locality_true in E. rewrite Hk0 in E. injection E as E.
    assert (Ek : k0 = k) by (rewrite E; now destruct k).
    clear E. subst k0. rewrite Hskip; [reflexivity|].
    intros k' Hk' Heq. rewrite Hk0 in Heq. injection Heq as Heq. subst k'.
    contradiction.
  - destruct Hin as [->|Hin].
    + assert (H : in_locality (fst k0) (snd k0) r = true)
        by (apply in_locality_true; now destruct k0).
      congruence.
    + rewrite (IH Hin). symmetry. apply Permutation_middle.
Qed.

Lemma concat_groups_perm (t : list Csv.row) (ks : list (string * string)) :
  NoDup ks -> (forall r k, In r t -> csv_key r = Some k -> In k ks) ->
  Permutation
    (List.concat (map (fun k => filter (in_locality (fst k) (snd k)) t) ks))
    (filter keyed t).
Proof.
  intros Hnd. induction t as [|r t IH]; intros Hin.
  - cbn [filter]. clear. induction ks; simpl; auto.
  - assert (IH' : Permutation
                    (List.concat (map (fun k => filter (in_locality (fst k) (snd k)) t) ks))
                    (filter keyed t)).
    { apply IH. intros r' k Hr'. apply Hin. now right. }
    change (filter keyed (r :: t))
      with (if keyed r then r :: filter keyed t else filter keyed t).
    unfold keyed at 1. destruct (csv_key r) as [k0|] eqn:Ek.
    + rewrite (concat_groups_cons r t k0 ks Ek Hnd);
        [now apply perm_skip|].
      apply (Hin r k0); [now left|exact Ek].
    + rewrite concat_groups_skip; [exact IH'|]. intros k _. rewrite Ek. discriminate.
Qed.

Lemma concat_local_dfs_original (t : list Csv.row) :
  map original (List.concat (local_dfs t))
  = List.concat (map (fun k => filter (in_locality (fst k) (snd k)) t) (groups_keys t)).
Proof.
  unfold local_dfs. rewrite concat_map, map_map. f_equal.
  apply map_ext. intros k. apply ldf_original.
Qed.

(** The original columns of [full_df] are the input rows that have a state
    and a county, in another order. *)
Lemma original_full_df_perm (t : list Csv.row) (full : list row) :
  full_df t = Some full -> Permutation (map original full) (filter keyed t).
Proof.
  intros H. rewrite (full_df_Some t full H). unfold sort_values.
  rewrite (Permutation_map original (stable_sort_perm row_leb _)).
  rewrite concat_local_dfs_original.
  apply concat_groups_perm; [apply groups_keys_NoDup|].
  intros r k Hr Hk. apply groups_keys_In. eauto.
Qed.

Lemma filter_keyed_all (t : list Csv.row) :
  Forall (fun r => keyed r = true) t -> filter keyed t = t.
Proof.
  induction 1 as [|r t Hr _ IH]; simpl; [reflexivity|]. now rewrite Hr, IH.
Qed.

(** ** The daily columns *)

Lemma daily_cons (x : count) (xs : list count) :
  daily (x :: xs) = 0 :: map astype_int (fillna 0 (diff_from x xs)).
Proof. reflexivity. Qed.

Lemma daily_from_cons (prev x : count) (xs : list count) :
  map astype_int (fillna 0 (diff_from prev (x :: xs)))
  = daily_step x prev :: map astype_int (fillna 0 (diff_from x xs)).
Proof. reflexivity. Qed.

Lemma daily_step_exact (x prev : count) (a b : Z) :
  value_of prev = Some a -> value_of x = Some b -> Z.abs (b - a) <= 2 ^ 53 ->
  daily_step x prev = b - a.
Proof.
  intros Hp Hx Hd. unfold daily_step.
  destruct (sub_count_exact x prev a b Hp Hx Hd) as [-> H]. exact H.
Qed.

Lemma daily_step_missing (x prev : count) :
  value_of prev = None \/ value_of x = None -> daily_step x prev = 0.
Proof. intros H. unfold daily_step. now rewrite (sub_count_missing x prev H). Qed.

(** The running sum undoes exact differences. *)
Lemma cumsum_daily_from (first acc p : Z) (prev : count) (xs : list count) :
  value_of prev = Some p -> exact_from p xs = true -> first + acc = p ->
  map Some (map (Z.add first)
              (cumsum_from acc (map astype_int (fillna 0 (diff_from prev xs)))))
  = map value_of xs.
Proof.
  revert acc p prev. induction xs as [|x xs IH]; intros acc p prev Hp He Hacc;
    [reflexivity|].
  cbn [exact_from] in He. destruct (value_of x) as [z|] eqn:Hx; [|discriminate].
  apply andb_true_iff in He. destruct He as [Hd He]. apply Z.leb_le in Hd.
  rewrite daily_from_cons, (daily_step_exact x prev p z Hp Hx Hd).
  cbn [cumsum_from map]. rewrite Hx. f_equal; [f_equal; lia|].
  apply (IH _ z x Hx He). lia.
Qed.

Lemma accumulate_daily (xs : list count) :
  exact_steps xs = true ->
  map Some (accumulate (first_value xs) (daily xs)) = map value_of xs.
Proof.
  destruct xs as [|x xs]; [reflexivity|].
  cbn [exact_steps first_value]. destruct (value_of x) as [z|] eqn:Hx; [|discriminate].
  intros He. unfold accumulate, cumsum. rewrite daily_cons. cbn [cumsum_from map].
  rewrite Hx. f_equal; [f_equal; lia|].
  apply (cumsum_daily_from z (0 + 0) z x xs Hx He). lia.
Qed.

(** The rows of a local frame after the first one. *)
Lemma assign_daily_adjacent (st co : string) (sel : list Csv.row) (p q : count)
    (pre : list row) (r1 r2 : row) (post : list row) :
  assign_daily st co sel
    (map astype_int (fillna 0 (diff_from p (map Csv.cases sel))))
    (map astype_int (fillna 0 (diff_from q (map Csv.deaths sel))))
  = pre ++ r1 :: r2 :: post ->
  daily_cases r2 = daily_step (cases r2) (cases r1)
  /\ daily_deaths r2 = daily_step (deaths r2) (deaths r1).
Proof.
  revert p q pre. induction sel as [|r sel IH]; intros p q pre H.
  - destruct pre; discriminate H.
  - cbn [map] in H. rewrite !daily_from_cons in H. cbn [assign_daily] in H.
    destruct pre as [|a pre]; cbn [app] in H.
    + injection H as H1 H2. subst r1.
      destruct sel as [|r' sel]; [discriminate H2|].
      cbn [map] in H2. rewrite !daily_from_cons in H2. cbn [assign_daily] in H2.
      injection H2 as H2 _. subst r2. split; reflexivity.
    + injection H as _ H. exact (IH _ _ _ H).
Qed.

Lemma add_daily_adjacent (st co : string) (sel : list Csv.row)
    (pre : list row) (r1 r2 : row) (post : list row) :
  add_daily st co sel = pre ++ r1 :: r2 :: post ->
  daily_cases r2 = daily_step (cases r2) (cases r1)
  /\ daily_deaths r2 = daily_step (deaths r2) (deaths r1).
Proof.
  destruct sel as [|r sel]; intros H.
  - destruct pre; discriminate H.
  - unfold add_daily in H. cbn [map] in H. rewrite !daily_cons in H.
    cbn [assign_daily] in H.
    destruct pre as [|a pre]; cbn [app] in H.
    + injection H as H1 H2. subst r1.
      destruct sel as [|r' sel]; [discriminate H2|].
      cbn [map] in H2. rewrite !daily_from_cons in H2. cbn [assign_daily] in H2.
      injection H2 as H2 _. subst r2. split; reflexivity.
    + injection H as _ H. exact (assign_daily_adjacent _ _ _ _ _ _ _ _ _ H).
Qed.

(** ** The collate cell: examples *)

(** The differences are taken in the row order of the input: the row of day
    2 comes first in the input and gets the zero, the row of day 1 gets the
    difference 10 - 15. *)
Example full_df_out_of_date_order :
  full_df table_out_of_date_order
  = Some [snohomish_row 1 10 0 (-5) (-1); snohomish_row 2 15 1 0 0].
Proof. reflexivity. Qed.

Example full_df_by_date_out_of_date_order :
  full_df_by_date table_out_of_date_order
  = Some [snohomish_row 1 10 0 0 0; snohomish_row 2 15 1 5 1].
Proof. reflexivity. Qed.

(** Next to a blank count the daily value is zero. *)
Example full_df_blank_deaths :
  option_map (map daily_deaths) (full_df table_blank_deaths) = Some [0; 0; 0].
Proof. reflexivity. Qed.

(** A step of 2^53 + 1 is rounded to 2^53. *)
Example full_df_large_step :
  option_map (map daily_cases) (full_df table_large_step) = Some [0; 2 ^ 53].
Proof. reflexivity. Qed.

(** A record with a blank county is in no local frame. *)
Example full_df_blank_county :
  full_df table_blank_county = Some [snohomish_row 1 1 0 0 0].
Proof. reflexivity. Qed.

Lemma groups_keys_in_date_order :
  groups_keys table_in_date_order
  = [("Illinois", "Cook"); ("Washington", "Snohomish")]%string.
Proof. reflexivity. Qed.

Lemma chronological_in_date_order :
  Forall (fun k => chronological (filter (in_locality (fst k) (snd k)) table_in_date_order))
         (groups_keys table_in_date_order).
Proof.
  rewrite groups_keys_in_date_order.
  repeat constructor; unfold chronological; simpl; repeat constructor; lia.
Qed.

(** ** The collate cell: the specified properties *)

(** C1, as stated, fails: in [table_out_of_date_order] the locality's rows
    of [full_df], taken from the first date on, have cumulative cases
    [10; 15], while the daily values [-5; 0] accumulated from 10 give
    [5; 5]. *)
Lemma accumulate_fails_out_of_date_order :
  ~ (forall (t : list Csv.row) (full : list row) (st co : string),
       full_df t = Some full ->
       map (fun r => value_of (cases r)) (locality st co full)
       = map Some (accumulate (first_value (map cases (locality st co full)))
                              (map daily_cases (locality st co full)))).
Proof.
  intros H.
  specialize (H table_out_of_date_order _ "Washington"%string "Snohomish"%string
                full_df_out_of_date_order).
  vm_compute in H. discriminate H.
Qed.

(** The same failure in date order: next to a blank count, and at a step
    beyond 2^53. *)
Example accumulate_fails_on_blank_count :
  forall full, full_df table_blank_deaths = Some full ->
  map (fun r => value_of (deaths r)) (locality "Puerto Rico" "Ponce" full)
  = [Some 1; None; Some 4]
  /\ accumulate 1 (map daily_deaths (locality "Puerto Rico" "Ponce" full)) = [1; 1; 1].
Proof. intros full [= <-]. split; reflexivity. Qed.

Example accumulate_fails_on_large_step :
  forall full, full_df table_large_step = Some full ->
  map (fun r => value_of (cases r)) (locality "Washington" "Snohomish" full)
  = [Some 0; Some (2 ^ 53 + 1)]
  /\ accumulate 0 (map daily_cases (locality "Washington" "Snohomish" full))
     = [0; 2 ^ 53].
Proof. intros full [= <-]. split; reflexivity. Qed.

(** C1 (amended): for every (state, county) locality group whose records
    are in non-decreasing date order in the input table, the group's rows
    of [full_df] carry the original cumulative cases and deaths columns;
    and where no cumulative cases (resp. deaths) value of the group is
    blank and none differs from the value of the record before by more than
    2^53, accumulating the daily_cases (resp. daily_deaths) values from the
    group's first date on, starting from the first cumulative value,
    reconstructs the cumulative cases (resp. deaths) column exactly. *)
Theorem accumulate_daily_chronological
    (t : list Csv.row) (full : list row) (st co : string) :
  full_df t = Some full ->
  chronological (filter (in_locality st co) t) ->
  (map cases (locality st co full) = map Csv.cases (filter (in_locality st co) t)
   /\ map deaths (locality st co full) = map Csv.deaths (filter (in_locality st co) t))
  /\ (exact_steps (map Csv.cases (filter (in_locality st co) t)) = true ->
      map (fun r => value_of (cases r)) (locality st co full)
      = map Some (accumulate (first_value (map cases (locality st co full)))
                             (map daily_cases (locality st co full))))
  /\ (exact_steps (map Csv.deaths (filter (in_locality st co) t)) = true ->
      map (fun r => value_of (deaths r)) (locality st co full)
      = map Some (accumulate (first_value (map deaths (locality st co full)))
                             (map daily_deaths (locality st co full)))).
Proof.
  intros Hfull Hc. rewrite (locality_chronological t full st co Hfull Hc).
  unfold ldf.
  rewrite add_daily_cases, add_daily_deaths, add_daily_daily_cases, add_daily_daily_deaths.
  split; [split; reflexivity|].
  split; intros He.
  - rewrite <- (map_map cases value_of), add_daily_cases. symmetry.
    now apply accumulate_daily.
  - rewrite <- (map_map deaths value_of), add_daily_deaths. symmetry.
    now apply accumulate_daily.
Qed.

Lemma accumulate_daily_chronological_witness :
  map (fun r => value_of (cases r)) (locality "Washington" "Snohomish" full_in_date_order)
  = map Some (accumulate 1 [0; 0; 3]).
Proof.
  assert (H : chronological
                (filter (in_locality "Washington" "Snohomish") table_in_date_order))
    by (unfold chronological; simpl; repeat constructor; lia).
  exact (proj1 (proj2 (accumulate_daily_chronological
                         table_in_date_order full_in_date_order
                         "Washington" "Snohomish" full_df_in_date_order H))
               eq_refl).
Defined.

(** C2, as stated, fails: on [table_out_of_date_order] the notebook's
    transform differs from the transform that sorts every group by date
    before taking the differences. *)
Lemma no_sort_by_date_before_diff :
  full_df table_out_of_date_order <> full_df_by_date table_out_of_date_order.
Proof. vm_compute. discriminate. Qed.

Lemma ldf_by_date_chronological (t : list Csv.row) (st co : string) :
  chronological (filter (in_locality st co) t) -> ldf_by_date t st co = ldf t st co.
Proof.
  intros H. unfold ldf_by_date, ldf, sort_by_date. f_equal.
  apply stable_sort_sorted_id.
  unfold chronological in H. revert H.
  induction (filter (in_locality st co) t) as [|r g IH]; intros H; [constructor|].
  cbn [map] in H. inversion H as [|? ? Hs Hhd]; subst.
  constructor; [now apply IH|].
  destruct g as [|r' g]; constructor.
  cbn [map] in Hhd. inversion Hhd; subst. now apply Z.leb_le.
Qed.

(** C2 (amended): for each unique (state, county) pair the delta transform
    takes the group's records in the row order of the input table, without
    sorting them by date, and gives the first record of the group the daily
    values zero and every later record the discrete difference of its
    cumulative cases and deaths to the record just before it in that order
    (the difference itself where both values are present and differ by at
    most 2^53, zero where one of them is blank); its output table is sorted
    by (date, state, county), and the rows of a locality in it are the rows
    of that local frame in the order of the final sort.  When the records
    of every group are in non-decreasing date order in the input, the
    result is the one that sorting every group by date first gives. *)
Theorem full_df_sorted_diff_in_row_order (t : list Csv.row) (full : list row) :
  full_df t = Some full ->
  StronglySorted (fun r1 r2 => row_leb r1 r2 = true) full
  /\ (forall st co,
        map original (ldf t st co) = filter (in_locality st co) t
        /\ locality st co full = sort_values (ldf t st co))
  /\ (forall st co r rest,
        ldf t st co = r :: rest -> daily_cases r = 0 /\ daily_deaths r = 0)
  /\ (forall st co pre r1 r2 post,
        ldf t st co = pre ++ r1 :: r2 :: post ->
        (forall a b, value_of (cases r1) = Some a -> value_of (cases r2) = Some b ->
                     Z.abs (b - a) <= 2 ^ 53 -> daily_cases r2 = b - a)
        /\ (forall a b, value_of (deaths r1) = Some a -> value_of (deaths r2) = Some b ->
                        Z.abs (b - a) <= 2 ^ 53 -> daily_deaths r2 = b - a)
        /\ (value_of (cases r1) = None \/ value_of (cases r2) = None ->
            daily_cases r2 = 0)
        /\ (value_of (deaths r1) = None \/ value_of (deaths r2) = None ->
            daily_deaths r2 = 0))
  /\ (Forall (fun k => chronological (filter (in_locality (fst k) (snd k)) t))
             (groups_keys t) ->
      full_df_by_date t = Some full).
Proof.
  intros Hfull. split; [|split; [|split; [|split]]].
  - rewrite (full_df_Some t full Hfull).
    apply stable_sort_sorted; [apply row_leb_total|apply row_leb_trans].
  - intros st co. split; [apply ldf_original|now apply locality_full_df].
  - intros st co r rest H. unfold ldf in H.
    destruct (filter (in_locality st co) t) as [|r0 sel]; [discriminate H|].
    destruct (add_daily_head st co r0 sel) as [rest' Hr]. rewrite Hr in H.
    injection H as <- _. split; reflexivity.
  - intros st co pre r1 r2 post H.
    destruct (add_daily_adjacent _ _ _ _ _ _ _ H) as [Hc Hd].
    rewrite Hc, Hd. repeat split.
    + intros a b. apply daily_step_exact.
    + intros a b. apply daily_step_exact.
    + apply daily_step_missing.
    + apply daily_step_missing.
  - intros H. rewrite <- Hfull. unfold full_df, full_df_by_date, local_dfs.
    do 2 f_equal. apply map_ext_in. intros k Hk. apply ldf_by_date_chronological.
    rewrite Forall_forall in H. now apply H.
Qed.

Lemma full_df_sorted_diff_in_row_order_witness :
  full_df_by_date table_in_date_order = Some full_in_date_order.
Proof.
  exact (proj2 (proj2 (proj2 (proj2
           (full_df_sorted_diff_in_row_order table_in_date_order full_in_date_order
              full_df_in_date_order))))
           chronological_in_date_order).
Defined.

(** C3, as stated, fails: with the same three days in the input table in
    the order 20, 15, 10 the daily counts of the locality, by date, are
    -5, -5 and 0. *)
Lemma three_days_latest_first :
  ~ (forall (t : list Csv.row) (full : list row) (st co : string) (d : Z),
       full_df t = Some full ->
       Permutation
         (map (fun r => (Csv.date r, value_of (Csv.cases r)))
              (filter (in_locality st co) t))
         [(d, Some 10); (d + 1, Some 15); (d + 2, Some 20)] ->
       map daily_cases (locality st co full) = [0; 5; 5]).
Proof.
  intros H.
  assert (Hfull : full_df table_three_days_reversed
                  = Some [snohomish_row 1 10 0 (-5) 0; snohomish_row 2 15 0 (-5) (-1);
                          snohomish_row 3 20 1 0 0]) by reflexivity.
  specialize (H table_three_days_reversed _ "Washington"%string "Snohomish"%string 1
                Hfull).
  assert (Hp : Permutation
                 (map (fun r => (Csv.date r, value_of (Csv.cases r)))
                      (filter (in_locality "Washington" "Snohomish")
                              table_three_days_reversed))
                 [(1, Some 10); (1 + 1, Some 15); (1 + 2, Some 20)]).
  { apply Permutation_sym.
    exact (Permutation_rev [(1, Some 10); (2, Some 15); (3, Some 20)]). }
  specialize (H Hp). vm_compute in H. discriminate H.
Qed.

(** C3 (amended): for a locality whose records in the input table are, in
    this order, three consecutive days with the cumulative case counts 10,
    15 and 20, the delta transform produces the daily counts 0, 5 and 5 for
    that locality, whatever else the table holds. *)
Theorem three_days_daily_cases
    (t : list Csv.row) (full : list row) (st co : string) (d : Z) :
  full_df t = Some full ->
  map (fun r => (Csv.date r, value_of (Csv.cases r))) (filter (in_locality st co) t)
  = [(d, Some 10); (d + 1, Some 15); (d + 2, Some 20)] ->
  map daily_cases (locality st co full) = [0; 5; 5].
Proof.
  intros Hfull Hsel.
  assert (Hc : chronological (filter (in_locality st co) t)).
  { unfold chronological.
    rewrite <- (map_map (fun r => (Csv.date r, value_of (Csv.cases r))) fst), Hsel.
    cbn [map fst]. repeat constructor; lia. }
  rewrite (locality_chronological t full st co Hfull Hc).
  unfold ldf. rewrite add_daily_daily_cases.
  destruct (filter (in_locality st co) t) as [|r1 [|r2 [|r3 [|r4 sel]]]];
    try discriminate Hsel.
  cbn [map] in Hsel. injection Hsel as _ H1 _ H2 _ H3.
  cbn [map]. rewrite daily_cons, !daily_from_cons.
  rewrite (daily_step_exact _ _ 10 15 H1 H2) by (cbn; lia).
  rewrite (daily_step_exact _ _ 15 20 H2 H3) by (cbn; lia).
  reflexivity.
Qed.

Lemma three_days_daily_cases_witness :
  exists full,
    full_df table_three_days = Some full
    /\ map daily_cases (locality "Washington" "Snohomish" full) = [0; 5; 5].
Proof.
  eexists. split; [reflexivity|].
  apply (three_days_daily_cases table_three_days _ "Washington" "Snohomish" 1);
    reflexivity.
Defined.

(** C4, as stated, fails: in [full_df] of [table_out_of_date_order] the
    first row of the locality is the row of day 1, with daily_cases -5 and
    daily_deaths -1. *)
Lemma first_row_nonzero_out_of_date_order :
  ~ (forall (t : list Csv.row) (full : list row) (st co : string)
            (r : row) (rest : list row),
       full_df t = Some full ->
       locality st co full = r :: rest ->
       daily_cases r = 0 /\ daily_deaths r = 0).
Proof.
  intros H.
  destruct (H table_out_of_date_order _ "Washington"%string "Snohomish"%string
              (snohomish_row 1 10 0 (-5) (-1)) [snohomish_row 2 15 1 0 0]
              full_df_out_of_date_order eq_refl) as [H1 _].
  discriminate H1.
Qed.

(** C4 (amended): for every (state, county) locality group whose records
    are in non-decreasing date order in the input table, [full_df] has a
    value, the group has a first row in it, and that row has daily_cases
    equal to zero and daily_deaths equal to zero. *)
Theorem first_row_daily_zero (t : list Csv.row) (st co : string) :
  In (st, co) (groups_keys t) ->
  chronological (filter (in_locality st co) t) ->
  exists full r rest,
    full_df t = Some full
    /\ locality st co full = r :: rest
    /\ daily_cases r = 0 /\ daily_deaths r = 0.
Proof.
  intros Hk H. pose proof (full_df_of_group t st co Hk) as Hfull.
  exists (sort_values (List.concat (local_dfs t))).
  rewrite (locality_chronological t _ st co Hfull H). unfold ldf.
  destruct (filter (in_locality st co) t) as [|r0 sel] eqn:E.
  - exfalso. apply groups_keys_In in Hk. destruct Hk as (r & Hr & Hkey).
    assert (Hin : In r (filter (in_locality st co) t)).
    { apply filter_In. split; [exact Hr|]. now apply in_locality_true. }
    rewrite E in Hin. contradiction.
  - destruct (add_daily_head st co r0 sel) as [rest Hrest].
    exists (with_daily st co r0 0 0), rest. rewrite Hrest. auto.
Qed.

Lemma first_row_daily_zero_witness :
  exists full r rest,
    full_df table_in_date_order = Some full
    /\ locality "Illinois" "Cook" full = r :: rest
    /\ daily_cases r = 0 /\ daily_deaths r = 0.
Proof.
  assert (Hk : In ("Illinois", "Cook")%string (groups_keys table_in_date_order))
    by (simpl; auto).
  assert (H : chronological (filter (in_locality "Illinois" "Cook") table_in_date_order))
    by (unfold chronological; simpl; repeat constructor; lia).
  exact (first_row_daily_zero table_in_date_order "Illinois" "Cook" Hk H).
Defined.

(** C9, as stated, fails: of the two records of [table_blank_county] the
    one with the blank county is not in [full_df]. *)
Lemma record_with_blank_county_lost :
  ~ (forall (t : list Csv.row) (full : list row),
       full_df t = Some full ->
       Permutation (map original full) t
       /\ List.length full = List.length t).
Proof.
  intros H.
  destruct (H table_blank_county _ full_df_blank_county) as [_ Hlen].
  discriminate Hlen.
Qed.

(** C9 (amended): the original columns (date, state, county, fips, cases,
    deaths) of the rows of [full_df] are the records of the input table
    that have both a state and a county, each as often as it occurs there;
    on a table that is not empty and in which every record has both, the
    delta transform succeeds, keeps the number of rows and leaves every
    original column value of every record unchanged: nothing but the two
    daily columns is added and nothing but the row order changes. *)
Theorem full_df_preserves_rows (t : list Csv.row) :
  (forall full, full_df t = Some full ->
                Permutation (map original full) (filter keyed t))
  /\ (Forall (fun r => keyed r = true) t -> t <> [] ->
      exists full,
        full_df t = Some full
        /\ Permutation (map original full) t
        /\ List.length full = List.length t).
Proof.
  split; [apply original_full_df_perm|].
  intros Hall Hne. destruct t as [|r t']; [contradiction|].
  assert (Hfull : full_df (r :: t')
                  = Some (sort_values (List.concat (local_dfs (r :: t'))))).
  { apply (full_df_value (r :: t') r); [now left|].
    inversion Hall as [|? ? Hr _]; subst. unfold keyed in Hr.
    destruct (csv_key r); [discriminate|discriminate Hr]. }
  eexists. split; [exact Hfull|].
  pose proof (original_full_df_perm _ _ Hfull) as Hp.
  rewrite (filter_keyed_all _ Hall) in Hp. split; [exact Hp|].
  apply Permutation_length in Hp. now rewrite length_map in Hp.
Qed.

Lemma full_df_preserves_rows_witness :
  exists full,
    full_df table_in_date_order = Some full
    /\ Permutation (map original full) table_in_date_order
    /\ List.length full = List.length table_in_date_order.
Proof.
  apply (proj2 (full_df_preserves_rows table_in_date_order)).
  - repeat constructor.
  - discriminate.
Defined.

(** ** The locality filters *)

Lemma filter_state_nil (st : string) (df : list row) :
  Forall (fun r => state r <> st) df ->
  filter (fun r => (state r =? st)%string) df = [].
Proof.
  intros H. apply filter_nil_iff. intros r Hr.
  rewrite Forall_forall in H. apply String.eqb_neq. now apply H.
Qed.

(** C8: a state selection that occurs in no row of the derived table, or a
    state and county selection that occurs together in no row, makes the
    filter of [make_plots] return the empty table; the filter is a total
    function and has no error result.  A selection is a non-empty dropdown
    value: the empty string is the entry that switches the filter off. *)
Theorem make_plots_filter_empty (full : list row) (st co : string) :
  st <> ""%string ->
  (Forall (fun r => state r <> st) full -> make_plots_filter full st co = [])
  /\ (co <> ""%string ->
      Forall (fun r => ~ (state r = st /\ county r = co)) full ->
      make_plots_filter full st co = []).
Proof.
  intros Hst. apply String.eqb_neq in Hst. unfold make_plots_filter.
  rewrite Hst. cbn [negb]. split.
  - intros H. rewrite (filter_state_nil st full H). now destruct (negb (co =? "")%string).
  - intros Hco H. apply String.eqb_neq in Hco. rewrite Hco. cbn [negb].
    apply filter_nil_iff. intros r Hr. apply filter_In in Hr. destruct Hr as [Hr Hs].
    apply String.eqb_eq in Hs. apply String.eqb_neq. intros Hc.
    rewrite Forall_forall in H. now apply (H r Hr).
Qed.

Lemma make_plots_filter_empty_witness :
  make_plots_filter full_in_date_order "Texas" "" = []
  /\ make_plots_filter full_in_date_order "Washington" "Cook" = [].
Proof.
  assert (Htx : "Texas"%string <> ""%string) by discriminate.
  assert (Hwa : "Washington"%string <> ""%string) by discriminate.
  assert (Hck : "Cook"%string <> ""%string) by discriminate.
  assert (H1 : Forall (fun r => state r <> "Texas"%string) full_in_date_order).
  { unfold full_in_date_order. repeat constructor; discriminate. }
  assert (H2 : Forall (fun r => ~ (state r = "Washington"%string /\ county r = "Cook"%string))
                      full_in_date_order).
  { unfold full_in_date_order.
    repeat constructor; simpl; intros [Hs Hc]; discriminate. }
  split.
  - exact (proj1 (make_plots_filter_empty full_in_date_order "Texas" "" Htx) H1).
  - exact (proj2 (make_plots_filter_empty full_in_date_order
                    "Washington" "Cook" Hwa) Hck H2).
Defined.

(** With a state selected, the county selection does matter. *)
Example timeseries_filter_county_with_state :
  map date (timeseries_filter full_in_date_order
                              (Some "Illinois"%string) (Some "Cook"%string))
  = [2; 3]
  /\ timeseries_filter full_in_date_order
                       (Some "Illinois"%string) (Some "Snohomish"%string)
     = [].
Proof. split; reflexivity. Qed.

Example local_series_whole_table :
  local_series full_in_date_order DailyCases None (Some "Cook"%string)
  = [(1, Int64 0); (2, Int64 0); (3, Int64 4)].
Proof. reflexivity. Qed.

(** C10: without a state ([None], and also the empty string) the county
    argument of [plot_timeseries] is not looked at: the rows that are
    aggregated are all rows of the table, and the aggregated series is the
    one of the call without a county. *)
Theorem county_ignored_without_state (df : list row) (c : column) (co : option string) :
  timeseries_filter df None co = df
  /\ local_series df c None co = sort_index (groupby_date_sum c df)
  /\ local_series df c None co = local_series df c None None
  /\ local_series df c (Some ""%string) co = local_series df c None None.
Proof. repeat split. Qed.

(** ** The anomaly mask *)

Module AnomalyFacts.
Import Anomaly Floats.
Local Open Scope float_scope.

Lemma select_map (g : Z * float -> bool) (s : series) :
  select s (map g s) = filter g s.
Proof.
  unfold select. induction s as [|p s IH]; simpl; [reflexivity|].
  destruct (g p); simpl; now rewrite IH.
Qed.

(** The flagged points are the points that pass the comparison, in the
    order of the series. *)
Lemma anomalies_filter (lib_mean lib_std : list float -> float) (t : float)
    (resid : series) :
  anomalies lib_mean lib_std t resid
  = filter (fun p => PrimFloat.leb (t * std lib_std (map snd resid))
                                   (abs (snd p - mean lib_mean (map snd resid))))
           resid.
Proof.
  unfold anomalies, anomaly_mask. rewrite map_map. apply select_map.
Qed.

(** The order of floats is transitive. *)
Lemma SFleb_trans (x y z : spec_float) :
  SFleb x y = true -> SFleb y z = true -> SFleb x z = true.
Proof.
  unfold SFleb, SFcompare.
  destruct x as [sx|sx| |sx mx ex], y as [sy|sy| |sy my ey],
           z as [sz|sz| |sz mz ez];
    try destruct sx; try destruct sy; try destruct sz;
    try reflexivity; try discriminate;
    change (PosDef.Pos.compare_cont Eq) with Pos.compare;
    destruct (Z.compare_spec ex ey), (Z.compare_spec ey ez), (Z.compare_spec ex ez);
    try lia; try reflexivity; try discriminate;
    destruct (Pos.compare_spec mx my), (Pos.compare_spec my mz),
             (Pos.compare_spec mx mz);
    try lia; try reflexivity; try discriminate.
Qed.

Lemma leb_trans (x y z : float) :
  PrimFloat.leb x y = true -> PrimFloat.leb y z = true -> PrimFloat.leb x z = true.
Proof. rewrite !leb_spec. apply SFleb_trans. Qed.

(** A bound that is NaN lets no point pass. *)
Lemma leb_mul_nan (t x : float) : PrimFloat.leb (t * nan) x = false.
Proof.
  rewrite leb_spec, mul_spec.
  change (Prim2SF nan) with S754_nan.
  destruct (Prim2SF t); reflexivity.
Qed.

Example anomalies_spike :
  plot_anomalies seq_mean seq_std None spike_resid = [(6%Z, 11)].
Proof. reflexivity. Qed.

Example anomalies_flat :
  plot_anomalies seq_mean seq_std None flat_resid = flat_resid
  /\ anomalies seq_mean seq_std neg_infinity flat_resid = [].
Proof. split; reflexivity. Qed.

(** C5, as stated, fails: every point of [flat_resid] is flagged at the
    default threshold, and none deviates from the mean by more than three
    standard deviations (both are zero). *)
Lemma flagged_without_larger_deviation :
  ~ (forall (lib_mean lib_std : list float -> float) (resid : series) (p : Z * float),
       In p (plot_anomalies lib_mean lib_std None resid)
       <-> In p resid /\ deviates_more lib_mean lib_std 3 (map snd resid) (snd p)).
Proof.
  intros H. specialize (H seq_mean seq_std flat_resid (1%Z, 0)).
  assert (Hin : In (1%Z, 0) (plot_anomalies seq_mean seq_std None flat_resid))
    by (rewrite (proj1 anomalies_flat); now left).
  apply H in Hin. destruct Hin as [_ Hgt].
  vm_compute in Hgt. discriminate Hgt.
Qed.

(** C5 (amended): a point of the residual series is flagged as an anomaly
    exactly when its residual deviates from the residual mean by at least
    anomaly_threshold times the residual standard deviation, as computed in
    float arithmetic; a deviation equal to the bound is flagged.  The
    threshold defaults to 3. *)
Theorem flagged_iff_deviates_at_least
    (lib_mean lib_std : list float -> float) (t : float) (resid : series)
    (p : Z * float) :
  (In p (anomalies lib_mean lib_std t resid)
   <-> In p resid /\ deviates_at_least lib_mean lib_std t (map snd resid) (snd p))
  /\ plot_anomalies lib_mean lib_std None resid = anomalies lib_mean lib_std 3 resid
  /\ plot_anomalies lib_mean lib_std (Some t) resid = anomalies lib_mean lib_std t resid.
Proof.
  split; [|split; reflexivity].
  rewrite anomalies_filter, filter_In. reflexivity.
Qed.



(** The same with finite thresholds, on residuals whose sum overflows: the
    standard deviation is infinite, the bound at threshold 0 is NaN and the
    bound at threshold 1 is infinite, as every deviation is. *)
Example anomalies_not_antitone_on_overflow :
  anomalies seq_mean seq_std 1 huge_resid = huge_resid
  /\ anomalies seq_mean seq_std 0 huge_resid = [].
Proof. split; reflexivity. Qed.



(** X15: a residual series of fewer than two points has no standard
    deviation, and no point of it is flagged at any threshold. *)
Theorem short_series_flags_nothing
    (lib_mean lib_std : list float -> float) (t : float) (resid : series) :
  (List.length resid < 2)%nat -> anomalies lib_mean lib_std t resid = [].
Proof.
  intros Hlen. rewrite anomalies_filter.
  destruct resid as [|[d1 x] [|[d2 y] resid]]; cbn [List.length] in Hlen; try lia.
  - reflexivity.
  - cbn [map snd std filter]. now rewrite leb_mul_nan.
Qed.

Lemma short_series_flags_nothing_witness :
  anomalies seq_mean seq_std (-1) [(1%Z, 5)] = [].
Proof.
  apply (short_series_flags_nothing seq_mean seq_std (-1) [(1%Z, 5)]). simpl. lia.
Defined.

Lemma anomalies_incl (lib_mean lib_std : list float -> float) (t : float)
    (resid : series) :
  incl (anomalies lib_mean lib_std t resid) resid.
Proof. rewrite anomalies_filter. intros p Hp. now apply filter_In in Hp. Qed.
End AnomalyFacts.

(** ** The anomaly markers *)

Module MarkersFacts.
Import Anomaly AnomalyFacts Markers Floats.

Section Loc.
Context {V : Type}.

Lemma loc1_In (s : list (Z * V)) (d : Z) :
  In d (map fst s) -> exists v, loc1 s d = Some v /\ In (d, v) s.
Proof.
  induction s as [|[d' v] s IH]; intros H; [contradiction|].
  cbn [loc1]. destruct (d' =? d) eqn:E.
  - apply Z.eqb_eq in E. subst. exists v. split; [reflexivity|now left].
  - destruct H as [H|H]; [apply Z.eqb_neq in E; contradiction|].
    destruct (IH H) as (w & Hw & Hin). exists w. split; [exact Hw|now right].
Qed.

Lemma loc_all (s : list (Z * V)) (ds : list Z) :
  incl ds (map fst s) ->
  exists ms, loc s ds = Some ms /\ map fst ms = ds /\ incl ms s.
Proof.
  induction ds as [|d ds IH]; intros H.
  - exists []. repeat split. intros x [].
  - destruct (loc1_In s d (H d (or_introl eq_refl))) as (v & Hv & Hin).
    destruct IH as (ms & Hms & Hfst & Hincl).
    { intros x Hx. apply H. now right. }
    exists ((d, v) :: ms). cbn [loc]. rewrite Hv, Hms. repeat split.
    + cbn [map fst]. now rewrite Hfst.
    + intros x [<-|Hx]; auto.
Qed.

(** X17: when the residual series has the dates of the plotted series, as
    the decomposition of that series has, the lookup of the markers does
    not fail, there is one marker for every flagged date, in order, and
    every marker is a point of the plotted series. *)
Theorem markers_on_series
    (lib_mean lib_std : list PrimFloat.float -> PrimFloat.float)
    (ls : list (Z * V)) (t : PrimFloat.float) (resid : series) :
  map fst resid = map fst ls ->
  exists ms,
    markers lib_mean lib_std ls t resid = Some ms
    /\ map fst ms = map fst (anomalies lib_mean lib_std t resid)
    /\ incl ms ls.
Proof.
  intros Hidx. unfold markers. apply loc_all.
  rewrite <- Hidx. intros d Hd. apply in_map_iff in Hd.
  destruct Hd as (p & <- & Hp). apply in_map.
  exact (anomalies_incl lib_mean lib_std t resid p Hp).
Qed.
End Loc.

Lemma markers_on_series_witness :
  exists ms,
    markers seq_mean seq_std (map (fun p => (fst p, 7%Z)) spike_resid) 3%float spike_resid
    = Some ms
    /\ map fst ms = map fst (anomalies seq_mean seq_std 3%float spike_resid)
    /\ incl ms (map (fun p => (fst p, 7%Z)) spike_resid).
Proof.
  apply (markers_on_series seq_mean seq_std
           (map (fun p => (fst p, 7%Z)) spike_resid) 3%float spike_resid).
  reflexivity.
Defined.
End MarkersFacts.

(** ** The collate cell: totals, adjacent rows and signs *)

Lemma sum_Z_perm (l1 l2 : list Z) : Permutation l1 l2 -> sum_Z l1 = sum_Z l2.
Proof. unfold sum_Z. induction 1; simpl; lia. Qed.

Lemma last_map_default {A B : Type} (f : A -> B) (l : list A) (d : A) :
  last (map f l) (f d) = f (last l d).
Proof.
  induction l as [|x l IH]; [reflexivity|].
  destruct l as [|y l]; [reflexivity|]. exact IH.
Qed.

Lemma last_cons_default {A : Type} (x d : A) (l : list A) :
  last (x :: l) d = last l x.
Proof.
  revert x d. induction l as [|y l IH]; intros x d; [reflexivity|].
  change (last (x :: y :: l) d) with (last (y :: l) d). now rewrite !IH.
Qed.

(** Exact differences add up to the last value minus the first one. *)
Lemma sum_daily_from (p : Z) (prev : count) (xs : list count) :
  value_of prev = Some p -> exact_from p xs = true ->
  value_of (last xs prev)
  = Some (p + sum_Z (map astype_int (fillna 0 (diff_from prev xs)))).
Proof.
  revert p prev. induction xs as [|x xs IH]; intros p prev Hp He.
  - cbn. rewrite Hp. f_equal. lia.
  - cbn [exact_from] in He. destruct (value_of x) as [z|] eqn:Hx; [|discriminate].
    apply andb_true_iff in He. destruct He as [Hd He]. apply Z.leb_le in Hd.
    rewrite last_cons_default, daily_from_cons, (daily_step_exact x prev p z Hp Hx Hd).
    rewrite (IH z x Hx He). unfold sum_Z. cbn [fold_right]. f_equal. lia.
Qed.

Lemma sum_daily (x : count) (xs : list count) :
  exact_steps (x :: xs) = true ->
  value_of (last xs x) = Some (first_value (x :: xs) + sum_Z (daily (x :: xs))).
Proof.
  cbn [exact_steps first_value]. destruct (value_of x) as [z|] eqn:Hx; [|discriminate].
  intros He. rewrite daily_cons, (sum_daily_from z x xs Hx He).
  unfold sum_Z. cbn [fold_right]. f_equal.
Qed.

(** X1: for a locality whose counts are all present and never differ from
    one input row to the next by more than 2^53, in whatever order its rows
    come, the daily values of its rows in [full_df] add up to the
    cumulative value of its last input row minus that of its first input
    row; the count already reached on the first row is in no daily value. *)
Theorem daily_total_is_last_minus_first
    (t : list Csv.row) (full : list row) (st co : string)
    (r0 : Csv.row) (rest : list Csv.row) :
  full_df t = Some full ->
  filter (in_locality st co) t = r0 :: rest ->
  (exact_steps (map Csv.cases (r0 :: rest)) = true ->
   value_of (Csv.cases (last rest r0))
   = Some (first_value (map Csv.cases (r0 :: rest))
           + sum_Z (map daily_cases (locality st co full))))
  /\ (exact_steps (map Csv.deaths (r0 :: rest)) = true ->
      value_of (Csv.deaths (last rest r0))
      = Some (first_value (map Csv.deaths (r0 :: rest))
              + sum_Z (map daily_deaths (locality st co full)))).
Proof.
  intros Hfull Hsel.
  pose proof (locality_full_df_perm t full st co Hfull) as Hp. unfold ldf in Hp.
  rewrite Hsel in Hp.
  rewrite (sum_Z_perm _ _ (Permutation_map daily_cases Hp)).
  rewrite (sum_Z_perm _ _ (Permutation_map daily_deaths Hp)).
  rewrite add_daily_daily_cases, add_daily_daily_deaths.
  rewrite <- (last_map_default Csv.cases), <- (last_map_default Csv.deaths).
  cbn [map]. split; apply sum_daily.
Qed.

Lemma daily_total_is_last_minus_first_witness :
  value_of (Int64 10)
  = Some (15 + sum_Z (map daily_cases
                        (locality "Washington" "Snohomish"
                           [snohomish_row 1 10 0 (-5) (-1); snohomish_row 2 15 1 0 0]))).
Proof.
  exact (proj1 (daily_total_is_last_minus_first table_out_of_date_order
                  [snohomish_row 1 10 0 (-5) (-1); snohomish_row 2 15 1 0 0]
                  "Washington" "Snohomish" (snohomish 2 15 1) [snohomish 1 10 0]
                  eq_refl eq_refl) eq_refl).
Defined.

(** X2: in a locality whose records are in non-decreasing date order in the
    input, the daily values of a row of [full_df] come from that row and
    the locality's row just before it, however many days lie between the
    two: the difference of the two counts where both are present and not
    more than 2^53 apart, and zero where one of them is blank. *)
Theorem daily_is_difference_to_previous_row
    (t : list Csv.row) (full : list row) (st co : string)
    (pre : list row) (r1 r2 : row) (post : list row) :
  full_df t = Some full ->
  chronological (filter (in_locality st co) t) ->
  locality st co full = pre ++ r1 :: r2 :: post ->
  (forall a b, value_of (cases r1) = Some a -> value_of (cases r2) = Some b ->
               Z.abs (b - a) <= 2 ^ 53 -> daily_cases r2 = b - a)
  /\ (value_of (cases r1) = None \/ value_of (cases r2) = None -> daily_cases r2 = 0)
  /\ (forall a b, value_of (deaths r1) = Some a -> value_of (deaths r2) = Some b ->
                  Z.abs (b - a) <= 2 ^ 53 -> daily_deaths r2 = b - a)
  /\ (value_of (deaths r1) = None \/ value_of (deaths r2) = None -> daily_deaths r2 = 0).
Proof.
  intros Hfull Hc H. rewrite (locality_chronological t full st co Hfull Hc) in H.
  destruct (add_daily_adjacent _ _ _ _ _ _ _ H) as [-> ->].
  repeat split; intros.
  - now apply daily_step_exact with (a := a).
  - now apply daily_step_missing.
  - now apply daily_step_exact with (a := a).
  - now apply daily_step_missing.
Qed.

Lemma daily_is_difference_to_previous_row_witness :
  daily_cases (snohomish_row 3 4 1 3 1) = 4 - 1.
Proof.
  assert (Hc : chronological
                 (filter (in_locality "Washington" "Snohomish") table_in_date_order))
    by (unfold chronological; simpl; repeat constructor; lia).
  assert (Hd : Z.abs (4 - 1) <= 2 ^ 53) by (simpl; lia).
  exact (proj1 (daily_is_difference_to_previous_row table_in_date_order
                  full_in_date_order "Washington" "Snohomish"
                  [snohomish_row 1 1 0 0 0] (snohomish_row 2 1 0 0 0)
                  (snohomish_row 3 4 1 3 1) [] eq_refl Hc eq_refl)
               1 4 eq_refl eq_refl Hd).
Defined.

Lemma daily_step_rising (x prev : count) :
  match value_of prev, value_of x with
  | Some a, Some b => (0 <=? b - a) && (b - a <=? 2 ^ 61)
  | _, _ => true
  end = true ->
  0 <= daily_step x prev.
Proof.
  intros H. destruct (value_of prev) as [a|] eqn:Hp.
  - destruct (value_of x) as [b|] eqn:Hx.
    + apply andb_true_iff in H. destruct H as [H1 H2]. apply Z.leb_le in H1, H2.
      destruct (sub_count_rising x prev a b Hp Hx (conj H1 H2)) as (d & Hd & Hnn).
      unfold daily_step. now rewrite Hd.
    + rewrite daily_step_missing; [lia|now right].
  - rewrite daily_step_missing; [lia|now left].
Qed.

Lemma daily_from_nonneg (prev : count) (xs : list count) :
  rising_from (2 ^ 61) prev xs = true ->
  Forall (fun d => 0 <= d) (map astype_int (fillna 0 (diff_from prev xs))).
Proof.
  revert prev. induction xs as [|x xs IH]; intros prev H; [constructor|].
  cbn [rising_from] in H. apply andb_true_iff in H. destruct H as [H1 H2].
  rewrite daily_from_cons. constructor; [now apply daily_step_rising|now apply IH].
Qed.

Lemma daily_nonneg (xs : list count) :
  rising (2 ^ 61) xs = true -> Forall (fun d => 0 <= d) (daily xs).
Proof.
  destruct xs as [|x xs]; [constructor|].
  cbn [rising]. intros H. rewrite daily_cons.
  constructor; [lia|now apply daily_from_nonneg].
Qed.

(** Beyond such steps the sign is not kept: the step from 0 to the largest
    64-bit integer is rounded to the float 2^63, which is no 64-bit
    integer. *)
Example daily_negative_on_huge_step :
  daily [Int64 0; Int64 int64_max] = [0; int64_min].
Proof. reflexivity. Qed.

(** X3: when the cumulative counts of a locality never decrease along its
    input rows (a blank count is compared with nothing) and never rise by
    more than 2^61 from one row to the next, none of its daily values in
    [full_df] is negative. *)
Theorem daily_nonnegative_when_cumulative_monotone
    (t : list Csv.row) (full : list row) (st co : string) :
  full_df t = Some full ->
  rising (2 ^ 61) (map Csv.cases (filter (in_locality st co) t)) = true ->
  rising (2 ^ 61) (map Csv.deaths (filter (in_locality st co) t)) = true ->
  Forall (fun r => 0 <= daily_cases r /\ 0 <= daily_deaths r)
         (locality st co full).
Proof.
  intros Hfull Hc Hd.
  apply (Permutation_Forall (Permutation_sym (locality_full_df_perm t full st co Hfull))).
  unfold ldf.
  pose proof (daily_nonneg _ Hc) as H1. pose proof (daily_nonneg _ Hd) as H2.
  rewrite <- add_daily_daily_cases with (st := st) (co := co) in H1.
  rewrite <- add_daily_daily_deaths with (st := st) (co := co) in H2.
  rewrite Forall_map in H1, H2. rewrite Forall_forall in *.
  intros r Hr. split; auto.
Qed.

Lemma daily_nonnegative_when_cumulative_monotone_witness :
  Forall (fun r => 0 <= daily_cases r /\ 0 <= daily_deaths r)
         (locality "Puerto Rico" "Ponce"
            [mk_row 1 "Ponce" "Puerto Rico" (Some 72113) (Int64 10) (Float64 1) 0 0;
             mk_row 2 "Ponce" "Puerto Rico" (Some 72113) (Int64 15) NaN 5 0;
             mk_row 3 "Ponce" "Puerto Rico" (Some 72113) (Int64 20) (Float64 4) 5 0]).
Proof.
  exact (daily_nonnegative_when_cumulative_monotone table_blank_deaths _
           "Puerto Rico" "Ponce" eq_refl eq_refl eq_refl).
Defined.

(** ** The collate cell: a table that is already in order *)

Section SortedUnique.
Context {A : Type} (key : A -> Z * (string * string)).

Lemma has_sort_key_refl (x : A) : has_sort_key key (key x) x = true.
Proof. unfold has_sort_key. now rewrite cmp_refl. Qed.

Lemma has_sort_key_eq (k : Z * (string * string)) (x : A) :
  has_sort_key key k x = true <-> key x = k.
Proof.
  unfold has_sort_key. split.
  - destruct (sort_key_compare (key x) k) eqn:E; try discriminate.
    intros _. now apply cmp_eq in E.
  - intros <-. now rewrite cmp_refl.
Qed.

(** Two lists in order that hold the same rows under every key, in the
    same order, are the same list. *)
Lemma sorted_unique (l1 l2 : list A) :
  StronglySorted (fun x y => cmp_leb sort_key_compare (key x) (key y) = true) l1 ->
  StronglySorted (fun x y => cmp_leb sort_key_compare (key x) (key y) = true) l2 ->
  (forall k, filter (has_sort_key key k) l1 = filter (has_sort_key key k) l2) ->
  l1 = l2.
Proof.
  intros H1. revert l2. induction H1 as [|x l1 Hs1 IH Hall1]; intros l2 H2 Hf.
  - destruct l2 as [|y l2]; [reflexivity|].
    specialize (Hf (key y)). cbn [filter] in Hf.
    rewrite has_sort_key_refl in Hf. discriminate Hf.
  - destruct l2 as [|y l2].
    { specialize (Hf (key x)). cbn [filter] in Hf.
      rewrite has_sort_key_refl in Hf. discriminate Hf. }
    inversion H2 as [|? ? Hs2 Hall2]; subst.
    assert (Hxy : x = y).
    { pose proof (Hf (key x)) as Hx. cbn [filter] in Hx.
      rewrite has_sort_key_refl in Hx.
      destruct (has_sort_key key (key x) y) eqn:Eyx; [now injection Hx|].
      pose proof (Hf (key y)) as Hy. cbn [filter] in Hy.
      rewrite has_sort_key_refl in Hy.
      assert (Exy : has_sort_key key (key y) x = false).
      { destruct (has_sort_key key (key y) x) eqn:E; [|reflexivity].
        apply has_sort_key_eq in E. rewrite E, has_sort_key_refl in Eyx.
        discriminate Eyx. }
      rewrite Exy in Hy.
      assert (Hin1 : In y l1).
      { assert (H : In y (filter (has_sort_key key (key y)) l1))
          by (rewrite Hy; now left).
        now apply filter_In in H. }
      assert (Hin2 : In x l2).
      { assert (H : In x (filter (has_sort_key key (key x)) l2))
          by (rewrite <- Hx; now left).
        now apply filter_In in H. }
      rewrite Forall_forall in Hall1, Hall2.
      pose proof (Hall1 y Hin1) as Hle1. pose proof (Hall2 x Hin2) as Hle2.
      unfold cmp_leb in Hle1, Hle2.
      rewrite (cmp_antisym (key x) (key y)) in Hle2.
      destruct (sort_key_compare (key x) (key y)) eqn:E; try discriminate.
      apply cmp_eq in E. rewrite <- E, has_sort_key_refl in Exy. discriminate Exy. }
    subst y. f_equal. apply IH; [exact Hs2|].
    intros k. specialize (Hf k). cbn [filter] in Hf.
    destruct (has_sort_key key k x); [now injection Hf|exact Hf].
Qed.
End SortedUnique.

Lemma filter_map_comm {A B : Type} (f : A -> B) (P : B -> bool) (l : list A) :
  filter P (map f l) = map f (filter (fun x => P (f x)) l).
Proof.
  induction l as [|x l IH]; simpl; [reflexivity|].
  destruct (P (f x)); simpl; now rewrite IH.
Qed.

Lemma filter_andb {A : Type} (P Q : A -> bool) (l : list A) :
  filter (fun x => P x && Q x) l = filter Q (filter P l).
Proof.
  induction l as [|x l IH]; simpl; [reflexivity|].
  destruct (P x); simpl; [destruct (Q x)|]; now rewrite IH.
Qed.

Lemma StronglySorted_map {A B : Type} (R : B -> B -> Prop) (f : A -> B) (l : list A) :
  StronglySorted (fun x y => R (f x) (f y)) l -> StronglySorted R (map f l).
Proof.
  induction 1 as [|x l Hs IH Hall]; simpl; constructor; [exact IH|].
  rewrite Forall_map. exact Hall.
Qed.

Lemma StronglySorted_filter {A : Type} (R : A -> A -> Prop) (P : A -> bool) (l : list A) :
  StronglySorted R l -> StronglySorted R (filter P l).
Proof.
  induction 1 as [|x l Hs IH Hall]; simpl; [constructor|].
  destruct (P x); [|exact IH]. constructor; [exact IH|].
  rewrite Forall_forall in *. intros y Hy. apply filter_In in Hy. now apply Hall.
Qed.

Lemma has_sort_key_csv (d : Z) (st co : string) (r : Csv.row) :
  keyed r = true ->
  has_sort_key csv_sort_key (d, (st, co)) r
  = in_locality st co r && (Csv.date r =? d).
Proof.
  intros Hk. unfold keyed in Hk.
  destruct (csv_key r) as [[s c]|] eqn:Ek; [|discriminate].
  apply eq_true_iff_eq.
  rewrite has_sort_key_eq, andb_true_iff, in_locality_true, Z.eqb_eq.
  unfold csv_sort_key. rewrite Ek.
  split; [intros [= -> -> ->]; auto|intros [[= -> ->] ->]; auto].
Qed.

Lemma filter_in_locality_keyed (st co : string) (t : list Csv.row) :
  filter (in_locality st co) (filter keyed t) = filter (in_locality st co) t.
Proof.
  induction t as [|r t IH]; [reflexivity|]. cbn [filter].
  destruct (keyed r) eqn:Ek; cbn [filter]; rewrite IH; [reflexivity|].
  destruct (in_locality st co r) eqn:E; [|reflexivity].
  apply in_locality_true in E. unfold keyed in Ek. rewrite E in Ek. discriminate.
Qed.

(** The rows of [full_df] under one sort key are the input rows under that
    key, in the order of the input. *)
Lemma full_df_rows_of_key (t : list Csv.row) (full : list row)
    (k : Z * (string * string)) :
  full_df t = Some full ->
  filter (has_sort_key csv_sort_key k) (map original full)
  = filter (has_sort_key csv_sort_key k) (filter keyed t).
Proof.
  intros Hfull. destruct k as [d [st co]].
  rewrite filter_map_comm.
  rewrite (filter_ext _ (fun r => (fun r => (state r =? st)%string && (county r =? co)%string) r
                                   && (fun r => date r =? d) r))
    by (intros r; apply (has_sort_key_csv d st co (original r)); reflexivity).
  rewrite (filter_ext_in _ (fun r => in_locality st co r && (Csv.date r =? d)))
    by (intros r Hr; apply filter_In in Hr; now apply has_sort_key_csv).
  rewrite (filter_andb (fun r => (state r =? st)%string && (county r =? co)%string)
                       (fun r => date r =? d)).
  rewrite (filter_andb (in_locality st co) (fun r => Csv.date r =? d)).
  rewrite filter_in_locality_keyed.
  fold (locality st co full). rewrite (locality_full_df t full st co Hfull).
  unfold sort_values.
  rewrite (filter_stable_sort row_leb row_leb_total row_leb_trans).
  rewrite stable_sort_sorted_id.
  - rewrite <- (filter_map_comm original (fun r => Csv.date r =? d)).
    now rewrite ldf_original.
  - assert (Hall : Forall (fun r => sort_key r = (d, (st, co)))
                     (filter (fun r => date r =? d) (ldf t st co))).
    { apply Forall_forall. intros r Hr. apply filter_In in Hr. destruct Hr as [Hr Hd].
      pose proof (ldf_rows_key t st co) as Hk. rewrite Forall_forall in Hk.
      destruct (Hk r Hr) as [Hst Hco]. apply Z.eqb_eq in Hd.
      unfold sort_key. congruence. }
    induction Hall as [|r l Hr Hall IH]; constructor; [exact IH|].
    destruct Hall as [|r' l Hr' _]; constructor.
    unfold row_leb, cmp_leb, row_compare. rewrite Hr, Hr'. now rewrite cmp_refl.
Qed.

(** X4: on an input table whose records with a state and a county are
    already in (date, state, county) order the delta transform leaves these
    records at their places: the original columns of [full_df], row by row,
    are those records; where every record has a state and a county and the
    table is not empty, [full_df] has a value and its original columns are
    the input table. *)
Theorem full_df_keeps_sorted_table (t : list Csv.row) :
  Sorted (fun r1 r2 => csv_row_leb r1 r2 = true) (filter keyed t) ->
  (forall full, full_df t = Some full -> map original full = filter keyed t)
  /\ (Forall (fun r => keyed r = true) t -> t <> [] ->
      exists full, full_df t = Some full /\ map original full = t).
Proof.
  intros Hs.
  assert (H1 : forall full, full_df t = Some full -> map original full = filter keyed t).
  { intros full Hfull. apply (sorted_unique csv_sort_key).
    - apply StronglySorted_map. rewrite (full_df_Some t full Hfull).
      apply (stable_sort_sorted row_leb row_leb_total row_leb_trans).
    - apply Sorted_StronglySorted; [|exact Hs].
      intros x y z. apply (cmp_leb_trans sort_key_compare).
    - intros k. now apply full_df_rows_of_key. }
  split; [exact H1|].
  intros Hall Hne. destruct t as [|r t]; [contradiction|].
  assert (Hr : csv_key r <> None).
  { inversion Hall as [|? ? Hk _]; subst. unfold keyed in Hk.
    destruct (csv_key r); [discriminate|discriminate Hk]. }
  pose proof (full_df_value (r :: t) r (or_introl eq_refl) Hr) as Hfull.
  eexists. split; [exact Hfull|].
  rewrite (H1 _ Hfull). now apply filter_keyed_all.
Qed.

Lemma full_df_keeps_sorted_table_witness :
  exists full,
    full_df [snohomish 1 1 0; cook 2 1 0; snohomish 2 1 0; cook 3 2 0] = Some full
    /\ map original full = [snohomish 1 1 0; cook 2 1 0; snohomish 2 1 0; cook 3 2 0].
Proof.
  apply (proj2 (full_df_keeps_sorted_table
                  [snohomish 1 1 0; cook 2 1 0; snohomish 2 1 0; cook 3 2 0]
                  ltac:(simpl; repeat constructor)));
    [repeat constructor|discriminate].
Defined.

(** ** Grouping by date *)

Lemma Zleb_total (x y : Z) : (x <=? y) = false -> (y <=? x) = true.
Proof. rewrite Z.leb_gt, Z.leb_le. lia. Qed.

Lemma Zleb_trans (x y z : Z) :
  (x <=? y) = true -> (y <=? z) = true -> (x <=? z) = true.
Proof. rewrite !Z.leb_le. lia. Qed.

Lemma sorted_nodup_increasing (ds : list Z) :
  StronglySorted (fun x y => (x <=? y) = true) ds -> NoDup ds ->
  StronglySorted Z.lt ds.
Proof.
  induction 1 as [|d ds Hs IH Hall]; intros Hnd; constructor;
    inversion Hnd as [|? ? Hnin Hnd']; subst.
  - now apply IH.
  - rewrite Forall_forall in *. intros y Hy. specialize (Hall y Hy).
    apply Z.leb_le in Hall. assert (y <> d) by (intros ->; contradiction). lia.
Qed.

Lemma wrap64_range (x : Z) : int64_min <= wrap64 x <= int64_max.
Proof.
  unfold wrap64, int64_min, int64_max.
  pose proof (Z.mod_pos_bound (x + 2 ^ 63) (2 ^ 64) ltac:(lia)). lia.
Qed.

Lemma wrap64_add_r (a b : Z) : wrap64 (a + wrap64 b) = wrap64 (a + b).
Proof.
  unfold wrap64. f_equal.
  rewrite (Z.mod_eq (b + 2 ^ 63) (2 ^ 64)) by lia.
  replace (a + (b + 2 ^ 63 - 2 ^ 64 * ((b + 2 ^ 63) / 2 ^ 64) - 2 ^ 63) + 2 ^ 63)
    with (a + b + 2 ^ 63 + (- ((b + 2 ^ 63) / 2 ^ 64)) * 2 ^ 64) by ring.
  apply Z_mod_plus_full.
Qed.

Lemma wrap64_add_l (a b : Z) : wrap64 (wrap64 a + b) = wrap64 (a + b).
Proof. rewrite (Z.add_comm (wrap64 a)), wrap64_add_r. f_equal. lia. Qed.

Lemma wrap64_idem (x : Z) : wrap64 (wrap64 x) = wrap64 x.
Proof. apply wrap64_small, wrap64_range. Qed.

(** A sum of wrapped sums is the sum, wrapped. *)
Lemma wrap64_sum_map {B : Type} (g : B -> Z) (ds : list B) :
  wrap64 (sum_Z (map (fun d => wrap64 (g d)) ds)) = wrap64 (sum_Z (map g ds)).
Proof.
  unfold sum_Z. induction ds as [|d ds IH]; [reflexivity|].
  cbn [map fold_right]. rewrite wrap64_add_l.
  rewrite <- wrap64_add_r, IH, wrap64_add_r. reflexivity.
Qed.

Lemma sum_present (vs : list count) :
  sum_Z (present vs) = sum_Z (map cell_value vs).
Proof.
  unfold sum_Z, present, cell_value. induction vs as [|v vs IH]; [reflexivity|].
  cbn [flat_map map fold_right]. destruct (value_of v); cbn [app fold_right]; lia.
Qed.

Lemma sum_cells_int (vs : list count) :
  forallb is_int64 vs = true ->
  sum_cells vs = Int64 (wrap64 (sum_Z (map cell_value vs))).
Proof. intros H. unfold sum_cells. now rewrite H, sum_present. Qed.

Lemma forallb_map_filter {A B : Type} (P : B -> bool) (f : A -> B) (Q : A -> bool)
    (l : list A) :
  forallb P (map f l) = true -> forallb P (map f (filter Q l)) = true.
Proof.
  rewrite !forallb_forall. intros H y Hy. apply H.
  apply in_map_iff in Hy. destruct Hy as (x & <- & Hx).
  apply filter_In in Hx. apply in_map. tauto.
Qed.

Lemma present_map_Int64 {B : Type} (h : B -> Z) (ds : list B) :
  present (map (fun d => Int64 (h d)) ds) = map h ds.
Proof. unfold present. induction ds; simpl; congruence. Qed.

Lemma abs_sum_filter {A : Type} (f : A -> Z) (P : A -> bool) (l : list A) :
  Z.abs (sum_Z (map f (filter P l))) <= sum_Z (map (fun x => Z.abs (f x)) l).
Proof.
  unfold sum_Z. induction l as [|x l IH]; [simpl; lia|].
  cbn [filter map fold_right]. destruct (P x); cbn [map fold_right]; lia.
Qed.

Section GroupSums.
Context {A : Type} (key f : A -> Z).

(** The sums of the groups of a list of keys that leaves no row out. *)
Lemma group_sums_cons (x : A) (l : list A) (ds : list Z) :
  NoDup ds ->
  sum_Z (map (fun d => sum_Z (map f (filter (fun r => key r =? d) (x :: l)))) ds)
  = sum_Z (map (fun d => sum_Z (map f (filter (fun r => key r =? d) l))) ds)
    + (if in_dec Z.eq_dec (key x) ds then f x else 0).
Proof.
  unfold sum_Z.
  induction 1 as [|d ds Hd Hnd IH]; [reflexivity|].
  cbn [map fold_right]. rewrite IH. cbn [filter].
  destruct (key x =? d) eqn:E.
  - apply Z.eqb_eq in E.
    destruct (in_dec Z.eq_dec (key x) ds) as [Hin'|_]; [subst; contradiction|].
    destruct (in_dec Z.eq_dec (key x) (d :: ds)) as [_|Hn];
      [|exfalso; apply Hn; now left].
    cbn [map fold_right]. lia.
  - apply Z.eqb_neq in E.
    destruct (in_dec Z.eq_dec (key x) ds) as [Hin'|Hn'];
      destruct (in_dec Z.eq_dec (key x) (d :: ds)) as [Hin|Hn]; try lia; exfalso.
    + apply Hn. now right.
    + destruct Hin; [congruence|contradiction].
Qed.

Lemma group_sums_total (l : list A) (ds : list Z) :
  NoDup ds -> (forall x, In x l -> In (key x) ds) ->
  sum_Z (map (fun d => sum_Z (map f (filter (fun r => key r =? d) l))) ds)
  = sum_Z (map f l).
Proof.
  intros Hnd. induction l as [|x l IH]; intros Hin.
  - cbn [filter map]. clear. unfold sum_Z. induction ds; simpl in *; lia.
  - rewrite group_sums_cons by exact Hnd.
    rewrite IH by (intros y Hy; apply Hin; now right).
    destruct (in_dec Z.eq_dec (key x) ds) as [_|Hn];
      [unfold sum_Z; cbn [map fold_right]; lia|].
    exfalso. apply Hn, Hin. now left.
Qed.
End GroupSums.

Section GroupBy.
Context {A : Type} (key : A -> Z) (val : A -> count).

Lemma groupby_keys_In (l : list A) (d : Z) :
  In d (stable_sort Z.leb (nodup Z.eq_dec (map key l))) <-> exists x, In x l /\ key x = d.
Proof.
  split.
  - intros H. apply (Permutation_in _ (stable_sort_perm _ _)) in H.
    apply nodup_In, in_map_iff in H. destruct H as (x & Hk & Hx). eauto.
  - intros (x & Hx & Hk).
    apply (Permutation_in _ (Permutation_sym (stable_sort_perm _ _))).
    apply nodup_In, in_map_iff. eauto.
Qed.

Lemma groupby_keys_NoDup (l : list A) :
  NoDup (stable_sort Z.leb (nodup Z.eq_dec (map key l))).
Proof.
  eapply Permutation_NoDup; [symmetry; apply stable_sort_perm|]. apply NoDup_nodup.
Qed.

Lemma groupby_keys_sorted (l : list A) :
  StronglySorted (fun x y => (x <=? y) = true)
                 (stable_sort Z.leb (nodup Z.eq_dec (map key l))).
Proof. apply stable_sort_sorted; [exact Zleb_total|exact Zleb_trans]. Qed.

Lemma groupby_sum_fst (l : list A) :
  map fst (groupby_sum key val l) = stable_sort Z.leb (nodup Z.eq_dec (map key l)).
Proof. unfold groupby_sum. rewrite map_map. cbn [fst]. apply map_id. Qed.

(** The result of a grouping is in increasing order of its index, so
    sorting it by the index changes nothing. *)
Lemma sort_index_groupby_sum (l : list A) :
  sort_index (groupby_sum key val l) = groupby_sum key val l.
Proof.
  unfold sort_index. apply stable_sort_sorted_id.
  apply StronglySorted_Sorted.
  pose proof (groupby_keys_sorted l) as H. rewrite <- groupby_sum_fst in H.
  induction (groupby_sum key val l) as [|p s IH]; [constructor|].
  cbn [map] in H. inversion H as [|? ? Hs Hall]; subst.
  constructor; [now apply IH|]. now rewrite Forall_map in Hall.
Qed.

(** The groups of a column of integers: every sum is a 64-bit integer. *)
Lemma groupby_sum_int (l : list A) :
  forallb is_int64 (map val l) = true ->
  groupby_sum key val l
  = map (fun d => (d, Int64 (wrap64 (sum_Z (map (fun r => cell_value (val r))
                                                (filter (fun r => key r =? d) l))))))
        (stable_sort Z.leb (nodup Z.eq_dec (map key l))).
Proof.
  intros H. unfold groupby_sum. apply map_ext. intros d. f_equal.
  rewrite sum_cells_int by now apply forallb_map_filter.
  now rewrite map_map.
Qed.

Lemma groupby_sum_int_values (l : list A) :
  forallb is_int64 (map val l) = true ->
  int_values (groupby_sum key val l)
  = map (fun d => wrap64 (sum_Z (map (fun r => cell_value (val r))
                                     (filter (fun r => key r =? d) l))))
        (stable_sort Z.leb (nodup Z.eq_dec (map key l))).
Proof.
  intros H. unfold int_values. rewrite (groupby_sum_int l H), map_map. cbn [snd].
  apply (present_map_Int64
           (fun d => wrap64 (sum_Z (map (fun r => cell_value (val r))
                                        (filter (fun r => key r =? d) l))))).
Qed.

Lemma groupby_sum_is_int (l : list A) :
  forallb is_int64 (map val l) = true ->
  Forall (fun p => is_int64 (snd p) = true) (groupby_sum key val l).
Proof.
  intros H. rewrite (groupby_sum_int l H). apply Forall_forall.
  intros p Hp. apply in_map_iff in Hp. now destruct Hp as (d & <- & _).
Qed.

(** Up to the wrap-around of 64-bit integers the group sums add up to the
    sum of the column. *)
Lemma groupby_sum_wrap_total (l : list A) :
  forallb is_int64 (map val l) = true ->
  wrap64 (sum_Z (int_values (groupby_sum key val l)))
  = wrap64 (sum_Z (map (fun r => cell_value (val r)) l)).
Proof.
  intros H. rewrite (groupby_sum_int_values l H).
  rewrite (wrap64_sum_map
             (fun d => sum_Z (map (fun r => cell_value (val r))
                                  (filter (fun r => key r =? d) l)))).
  f_equal. apply group_sums_total; [apply groupby_keys_NoDup|].
  intros x Hx. apply groupby_keys_In. eauto.
Qed.

(** Where the magnitudes of the column add up to a 64-bit integer, no group
    sum wraps around. *)
Lemma groupby_sum_exact_total (l : list A) :
  forallb is_int64 (map val l) = true ->
  sum_Z (map (fun r => Z.abs (cell_value (val r))) l) <= int64_max ->
  sum_Z (int_values (groupby_sum key val l))
  = sum_Z (map (fun r => cell_value (val r)) l).
Proof.
  intros H Hb. rewrite (groupby_sum_int_values l H).
  rewrite <- (group_sums_total key (fun r => cell_value (val r)) l
                (stable_sort Z.leb (nodup Z.eq_dec (map key l)))).
  - f_equal. apply map_ext. intros d. apply wrap64_small.
    pose proof (abs_sum_filter (fun r => cell_value (val r)) (fun r => key r =? d) l).
    unfold int64_min, int64_max in *. lia.
  - apply groupby_keys_NoDup.
  - intros x Hx. apply groupby_keys_In. eauto.
Qed.
End GroupBy.

(** X5: grouping by date loses and adds nothing in a column of integers:
    every value of the series that [plot_timeseries] draws is a 64-bit
    integer, the values add up to the sum of the column over the rows that
    passed the locality filter up to the wrap-around of 64-bit integers,
    and exactly when the magnitudes of the column add up to a 64-bit
    integer. *)
Theorem local_series_keeps_total (df : list row) (c : column) (st co : option string) :
  forallb is_int64 (map (get c) (timeseries_filter df st co)) = true ->
  Forall (fun p => is_int64 (snd p) = true) (local_series df c st co)
  /\ wrap64 (sum_Z (int_values (local_series df c st co)))
     = wrap64 (sum_Z (map (fun r => cell_value (get c r)) (timeseries_filter df st co)))
  /\ (sum_Z (map (fun r => Z.abs (cell_value (get c r))) (timeseries_filter df st co))
      <= int64_max ->
      sum_Z (int_values (local_series df c st co))
      = sum_Z (map (fun r => cell_value (get c r)) (timeseries_filter df st co))).
Proof.
  intros H. unfold local_series.
  change (groupby_date_sum c (timeseries_filter df st co))
    with (groupby_sum date (get c) (timeseries_filter df st co)).
  rewrite sort_index_groupby_sum. split; [|split].
  - now apply groupby_sum_is_int.
  - now apply groupby_sum_wrap_total.
  - now apply groupby_sum_exact_total.
Qed.

Lemma local_series_keeps_total_witness :
  sum_Z (int_values (local_series full_in_date_order DailyCases None None))
  = sum_Z (map (fun r => cell_value (get DailyCases r))
               (timeseries_filter full_in_date_order None None)).
Proof.
  apply (proj2 (proj2 (local_series_keeps_total full_in_date_order DailyCases
                         None None eq_refl))).
  vm_compute. discriminate.
Defined.

(** The sums of a date wrap around where they leave the 64-bit integers. *)
Example local_series_wraps :
  local_series [cook_row 1 (2 ^ 62) 0 0 0; snohomish_row 1 (2 ^ 62) 0 0 0]
               Cases None None
  = [(1, Int64 (- 2 ^ 63))].
Proof. reflexivity. Qed.

(** X6: the series that [plot_timeseries] draws has exactly one point for
    every date that occurs among the filtered rows, and its dates strictly
    increase. *)
Theorem local_series_dates (df : list row) (c : column) (st co : option string) :
  StronglySorted Z.lt (map fst (local_series df c st co))
  /\ forall d, In d (map fst (local_series df c st co))
               <-> exists r, In r (timeseries_filter df st co) /\ date r = d.
Proof.
  unfold local_series.
  change (groupby_date_sum c (timeseries_filter df st co))
    with (groupby_sum date (get c) (timeseries_filter df st co)).
  rewrite sort_index_groupby_sum, groupby_sum_fst. split.
  - apply sorted_nodup_increasing; [apply groupby_keys_sorted|apply groupby_keys_NoDup].
  - intros d. apply groupby_keys_In.
Qed.

(** ** [make_plots]: what is plotted under which title *)

Lemma filter_key_unique {B : Type} (f : B -> Z) (mk : Z -> B) (ds : list Z) (d : Z) :
  (forall d', f (mk d') = d') -> NoDup ds -> In d ds ->
  filter (fun r => f r =? d) (map mk ds) = [mk d].
Proof.
  intros Hf. induction 1 as [|d' ds Hnin Hnd IH]; intros Hin; [contradiction|].
  cbn [map filter]. rewrite Hf. destruct Hin as [->|Hin].
  - rewrite Z.eqb_refl. f_equal. apply filter_nil_iff.
    intros r Hr. apply in_map_iff in Hr. destruct Hr as (d' & <- & Hd').
    rewrite Hf. apply Z.eqb_neq. intros ->. contradiction.
  - assert (E : (d' =? d) = false) by (apply Z.eqb_neq; intros ->; contradiction).
    rewrite E. now apply IH.
Qed.

(** The sum of a one-row group of an integer column. *)
Lemma sum_cells_single_int (vs : list count) :
  forallb is_int64 vs = true -> sum_cells [sum_cells vs] = sum_cells vs.
Proof.
  intros H. rewrite (sum_cells_int vs H).
  unfold sum_cells. cbn [forallb is_int64 andb present flat_map value_of app].
  unfold sum_Z at 1. cbn [fold_right]. now rewrite Z.add_0_r, wrap64_idem.
Qed.

(** In a column of integers the second grouping by date, inside
    [plot_timeseries], changes nothing. *)
Lemma make_plots_series_int (full : list row) (st co : string) (c : column) :
  forallb is_int64 (map (get c) (make_plots_filter full st co)) = true ->
  make_plots_series full st co c
  = groupby_sum date (get c) (make_plots_filter full st co).
Proof.
  intros Hint.
  unfold make_plots_series. rewrite sort_index_groupby_sum.
  unfold groupby_sum, locality_df.
  set (sel := make_plots_filter full st co) in *.
  set (ds := stable_sort Z.leb (nodup Z.eq_dec (map date sel))).
  set (mk := fun d : Z =>
               let g := filter (fun r => date r =? d) sel in
               mk_date_row d (sum_cells (map cases g)) (sum_cells (map deaths g))
                 (sum_cells (map (get DailyCases) g))
                 (sum_cells (map (get DailyDeaths) g))).
  assert (Hnd : NoDup ds) by apply groupby_keys_NoDup.
  assert (Hkeys : stable_sort Z.leb (nodup Z.eq_dec (map on_date (map mk ds))) = ds).
  { rewrite map_map. cbn [on_date mk]. rewrite map_id.
    rewrite (nodup_fixed_point Z.eq_dec Hnd).
    apply stable_sort_sorted_id, StronglySorted_Sorted, groupby_keys_sorted. }
  rewrite Hkeys. apply map_ext_in. intros d Hd. f_equal.
  rewrite (filter_key_unique on_date mk ds d (fun _ => eq_refl) Hnd Hd).
  assert (Hg : forallb is_int64 (map (get c) (filter (fun r => date r =? d) sel)) = true)
    by now apply forallb_map_filter.
  cbn [map].
  replace (date_row_get c (mk d))
    with (sum_cells (map (get c) (filter (fun r => date r =? d) sel)))
    by (destruct c; reflexivity).
  now apply sum_cells_single_int.
Qed.

Lemma daily_columns_int (c : column) (df : list row) :
  c = DailyCases \/ c = DailyDeaths -> forallb is_int64 (map (get c) df) = true.
Proof.
  intros H. apply forallb_forall. intros x Hx. apply in_map_iff in Hx.
  destruct Hx as (r & <- & _). now destruct H as [-> | ->].
Qed.

(** X7: for the count columns, where they are columns of integers (the two
    daily columns always are), the second grouping by date, inside
    [plot_timeseries], changes nothing: the series that [make_plots] draws
    is the per-date sum of the column over the rows of the selected
    locality.  (The column CFR is not covered.) *)
Theorem make_plots_series_is_date_sum (full : list row) (st co : string) (c : column) :
  (c = DailyCases \/ c = DailyDeaths
   \/ forallb is_int64 (map (get c) (make_plots_filter full st co)) = true) ->
  make_plots_series full st co c = groupby_date_sum c (make_plots_filter full st co).
Proof.
  intros H. apply make_plots_series_int.
  destruct H as [H|[H|H]]; [apply daily_columns_int; auto..|exact H].
Qed.

Lemma make_plots_series_is_date_sum_witness :
  make_plots_series full_in_date_order "Washington" "" DailyCases
  = groupby_date_sum DailyCases (make_plots_filter full_in_date_order "Washington" "").
Proof.
  exact (make_plots_series_is_date_sum full_in_date_order "Washington" "" DailyCases
           (or_introl eq_refl)).
Defined.

Lemma summary_filter_timeseries_filter (df : list row) (st co : option string) :
  summary_filter df st co = timeseries_filter df st co.
Proof.
  unfold summary_filter, timeseries_filter.
  destruct st as [s|]; [|reflexivity]. destruct (truthy (Some s)); [|reflexivity].
  destruct co as [c|]; [|reflexivity]. cbn [truthy].
  now destruct (negb (c =? "")%string).
Qed.

(** X8: [plot_daily_cumulative_summary] and [plot_timeseries] select the same
    rows for all arguments, although they test the county differently, and
    the two curves of the summary are the series that [plot_timeseries]
    draws for the cases and the deaths columns. *)
Theorem summary_is_timeseries (df : list row) (st co : option string) :
  summary_filter df st co = timeseries_filter df st co
  /\ cum_sum_df df st co
     = (local_series df Cases st co, local_series df Deaths st co).
Proof.
  split; [apply summary_filter_timeseries_filter|].
  unfold cum_sum_df, local_series. rewrite summary_filter_timeseries_filter.
  change (groupby_date_sum Cases (timeseries_filter df st co))
    with (groupby_sum date (get Cases) (timeseries_filter df st co)).
  change (groupby_date_sum Deaths (timeseries_filter df st co))
    with (groupby_sum date (get Deaths) (timeseries_filter df st co)).
  now rewrite !sort_index_groupby_sum.
Qed.

(** X9: with a state selected, [make_plots] filters the rows that
    [plot_timeseries] would select for the same state and county. *)
Theorem make_plots_filter_with_state (full : list row) (st co : string) :
  st <> ""%string ->
  make_plots_filter full st co = timeseries_filter full (Some st) (Some co).
Proof.
  intros Hst. apply String.eqb_neq in Hst.
  unfold make_plots_filter, timeseries_filter. cbn [truthy]. rewrite Hst. cbn [negb].
  now destruct (negb (co =? "")%string).
Qed.

Lemma make_plots_filter_with_state_witness :
  make_plots_filter full_in_date_order "Illinois" "Cook"
  = timeseries_filter full_in_date_order (Some "Illinois"%string) (Some "Cook"%string).
Proof.
  apply (make_plots_filter_with_state full_in_date_order "Illinois" "Cook").
  discriminate.
Defined.

(** X10: with no state and a county selected, [make_plots] plots the rows of
    that county name from every state, under the title of the whole
    country; [plot_timeseries] called with the same two values would plot
    the whole table. *)
Theorem make_plots_county_without_state (full : list row) (co : string) :
  co <> ""%string ->
  make_plots_filter full "" co = filter (fun r => (county r =? co)%string) full
  /\ title_locality "" co = "US"%string
  /\ timeseries_filter full (Some ""%string) (Some co) = full.
Proof.
  intros Hco. apply String.eqb_neq in Hco.
  unfold make_plots_filter, title_locality. cbn. rewrite Hco. auto.
Qed.

Lemma make_plots_county_without_state_witness :
  map state (make_plots_filter full_in_date_order "" "Cook")
  = ["Illinois"; "Illinois"]%string
  /\ title_locality "" "Cook" = "US"%string.
Proof.
  assert (H : "Cook"%string <> ""%string) by discriminate.
  destruct (make_plots_county_without_state full_in_date_order "Cook" H)
    as (Hf & Ht & _).
  split; [rewrite Hf; reflexivity|exact Ht].
Defined.

(** X11: the rows that [make_plots] keeps are the rows of the table that
    match every non-empty selection. *)
Theorem make_plots_filter_In (full : list row) (st co : string) (r : row) :
  In r (make_plots_filter full st co)
  <-> In r full
      /\ (st = ""%string \/ state r = st)
      /\ (co = ""%string \/ county r = co).
Proof.
  unfold make_plots_filter.
  destruct (String.eqb_spec st ""), (String.eqb_spec co ""); cbn [negb];
    rewrite ?filter_In, ?String.eqb_eq; intuition congruence.
Qed.

Lemma make_plots_filter_locality (full : list row) (st co : string) :
  st <> ""%string -> co <> ""%string ->
  make_plots_filter full st co = locality st co full.
Proof.
  intros Hst Hco. apply String.eqb_neq in Hst, Hco.
  unfold make_plots_filter, locality. rewrite Hst, Hco. cbn [negb].
  symmetry. apply filter_andb.
Qed.

Lemma last_In {A : Type} (l : list A) (d : A) : In (last l d) (d :: l).
Proof.
  revert d. induction l as [|x l IH]; intros d; [now left|].
  rewrite last_cons_default. right. apply IH.
Qed.

Lemma counts_in_range_In (xs : list count) (x : count) :
  counts_in_range xs = true -> In x xs ->
  exists z, value_of x = Some z /\ 0 <= z <= int64_max.
Proof.
  unfold counts_in_range. rewrite forallb_forall. intros H Hx.
  specialize (H x Hx). destruct (value_of x) as [z|]; [|discriminate].
  apply andb_true_iff in H. destruct H as [H1 H2]. apply Z.leb_le in H1, H2. eauto.
Qed.

Lemma sum_abs_nonneg (l : list Z) :
  Forall (fun d => 0 <= d) l -> sum_Z (map Z.abs l) = sum_Z l.
Proof. unfold sum_Z. induction 1; simpl; lia. Qed.

(** The daily values of a column of counts that never decrease add up to a
    64-bit integer. *)
Lemma daily_sum_bound (x : count) (xs : list count) :
  exact_steps (x :: xs) = true -> rising (2 ^ 61) (x :: xs) = true ->
  counts_in_range (x :: xs) = true ->
  sum_Z (map Z.abs (daily (x :: xs))) <= int64_max.
Proof.
  intros He Hr Hc.
  rewrite (sum_abs_nonneg _ (daily_nonneg _ Hr)).
  pose proof (sum_daily x xs He) as Hsum.
  destruct (counts_in_range_In _ _ Hc (last_In xs x)) as (l & Hl & Hlr).
  destruct (counts_in_range_In _ x Hc (or_introl eq_refl)) as (f & Hf & Hfr).
  rewrite Hl in Hsum. injection Hsum as Hsum.
  cbn [first_value] in Hsum. rewrite Hf in Hsum.
  rewrite daily_cons. unfold sum_Z in *. cbn [fold_right]. lia.
Qed.

(** The points of a daily chart of one locality add up to the daily values
    of the locality. *)
Lemma daily_series_total (full : list row) (st co : string) (c : column)
    (f : row -> Z) (dl : list Z) :
  c = DailyCases \/ c = DailyDeaths -> (forall r, cell_value (get c r) = f r) ->
  st <> ""%string -> co <> ""%string ->
  Permutation (map f (locality st co full)) dl ->
  sum_Z (map Z.abs dl) <= int64_max ->
  sum_Z (int_values (make_plots_series full st co c)) = sum_Z dl.
Proof.
  intros Hc Hf Hst Hco Hp Hb.
  rewrite make_plots_series_int by now apply daily_columns_int.
  rewrite (make_plots_filter_locality _ _ _ Hst Hco).
  rewrite groupby_sum_exact_total.
  - rewrite (map_ext _ f Hf). now apply sum_Z_perm.
  - now apply daily_columns_int.
  - rewrite (map_ext _ (fun r => Z.abs (f r))) by (intros r; now rewrite Hf).
    rewrite <- (map_map f Z.abs).
    now rewrite (sum_Z_perm _ _ (Permutation_map Z.abs Hp)).
Qed.

(** X18: end to end, for one selected state and county whose counts in the
    input are present, between 0 and the largest 64-bit integer, never
    decreasing along its input rows and never rising by more than 2^53 from
    one row to the next: the points of the daily cases (resp. daily deaths)
    chart of [make_plots] add up to the cumulative cases (resp. deaths) of
    the locality's last input row minus those of its first input row. *)
Theorem make_plots_daily_chart_total
    (t : list Csv.row) (full : list row) (st co : string)
    (r0 : Csv.row) (rest : list Csv.row) :
  st <> ""%string -> co <> ""%string ->
  full_df t = Some full ->
  filter (in_locality st co) t = r0 :: rest ->
  (exact_steps (map Csv.cases (r0 :: rest)) = true ->
   rising (2 ^ 61) (map Csv.cases (r0 :: rest)) = true ->
   counts_in_range (map Csv.cases (r0 :: rest)) = true ->
   value_of (Csv.cases (last rest r0))
   = Some (first_value (map Csv.cases (r0 :: rest))
           + sum_Z (int_values (make_plots_series full st co DailyCases))))
  /\ (exact_steps (map Csv.deaths (r0 :: rest)) = true ->
      rising (2 ^ 61) (map Csv.deaths (r0 :: rest)) = true ->
      counts_in_range (map Csv.deaths (r0 :: rest)) = true ->
      value_of (Csv.deaths (last rest r0))
      = Some (first_value (map Csv.deaths (r0 :: rest))
              + sum_Z (int_values (make_plots_series full st co DailyDeaths)))).
Proof.
  intros Hst Hco Hfull Hsel.
  pose proof (locality_full_df_perm t full st co Hfull) as Hp. unfold ldf in Hp.
  rewrite Hsel in Hp.
  split; intros He Hr Hc.
  - assert (Hperm : Permutation (map daily_cases (locality st co full))
                                (daily (map Csv.cases (r0 :: rest)))).
    { rewrite <- add_daily_daily_cases with (st := st) (co := co).
      now apply Permutation_map. }
    rewrite (daily_series_total full st co DailyCases daily_cases _
               (or_introl eq_refl) (fun _ => eq_refl) Hst Hco Hperm
               (daily_sum_bound _ _ He Hr Hc)).
    rewrite <- (last_map_default Csv.cases). now apply sum_daily.
  - assert (Hperm : Permutation (map daily_deaths (locality st co full))
                                (daily (map Csv.deaths (r0 :: rest)))).
    { rewrite <- add_daily_daily_deaths with (st := st) (co := co).
      now apply Permutation_map. }
    rewrite (daily_series_total full st co DailyDeaths daily_deaths _
               (or_intror eq_refl) (fun _ => eq_refl) Hst Hco Hperm
               (daily_sum_bound _ _ He Hr Hc)).
    rewrite <- (last_map_default Csv.deaths). now apply sum_daily.
Qed.

Lemma make_plots_daily_chart_total_witness :
  value_of (Int64 4)
  = Some (1 + sum_Z (int_values (make_plots_series full_in_date_order
                                   "Washington" "Snohomish" DailyCases))).
Proof.
  assert (Hst : "Washington"%string <> ""%string) by discriminate.
  assert (Hco : "Snohomish"%string <> ""%string) by discriminate.
  exact (proj1 (make_plots_daily_chart_total table_in_date_order full_in_date_order
                  "Washington" "Snohomish" (snohomish 1 1 0)
                  [snohomish 2 1 0; snohomish 3 4 1] Hst Hco eq_refl eq_refl)
               eq_refl eq_refl eq_refl).
Defined.

(** ** [make_plots]: the recent window of the heatmaps *)

Lemma StronglySorted_last {A : Type} (R : A -> A -> Prop) (l : list A) (r : A) :
  StronglySorted R (l ++ [r]) -> Forall (fun x => R x r) l.
Proof.
  induction l as [|x l IH]; intros H; [constructor|].
  cbn [app] in H. inversion H as [|? ? Hs Hall]; subst.
  constructor; [|now apply IH].
  rewrite Forall_forall in Hall. apply Hall, in_or_app. right. now left.
Qed.

Lemma row_leb_date (r1 r2 : row) : row_leb r1 r2 = true -> date r1 <= date r2.
Proof.
  unfold row_leb, cmp_leb, row_compare, sort_key_compare, lex_pair, lex, sort_key.
  cbn [fst snd]. destruct (date r1 ?= date r2) eqn:E; intros H.
  - apply Z.compare_eq in E. lia.
  - rewrite Z.compare_lt_iff in E. lia.
  - discriminate H.
Qed.

Lemma full_df_twenty_days : full_df table_twenty_days = Some full_twenty_days.
Proof. reflexivity. Qed.

(** X13: for a selected state with at least one row, the recent window of
    [full_df] has a value, and it keeps exactly the rows of the state that
    are dated at most [RECENT_DAYS] days before the latest date of the
    state: the rows of up to fifteen different days. *)
Theorem recent_rows_window (t : list Csv.row) (full : list row) (st : string) (r0 : row) :
  st <> ""%string -> full_df t = Some full -> In r0 full -> state r0 = st ->
  exists latest rec,
    recent_rows full st = Some rec
    /\ (exists r, In r full /\ state r = st /\ date r = latest)
    /\ (forall r, In r full -> state r = st -> date r <= latest)
    /\ (forall r, In r rec
                  <-> In r full /\ state r = st
                      /\ latest - 14 <= date r <= latest).
Proof.
  intros _ Hfull Hin0 Hst0.
  assert (Hs : StronglySorted (fun r1 r2 => row_leb r1 r2 = true) (state_df full st)).
  { apply StronglySorted_filter. rewrite (full_df_Some t full Hfull).
    apply (stable_sort_sorted row_leb row_leb_total row_leb_trans). }
  assert (Hmem : forall r, In r (state_df full st) <-> In r full /\ state r = st).
  { intros r. unfold state_df. now rewrite filter_In, String.eqb_eq. }
  unfold recent_rows.
  destruct (rev (state_df full st)) as [|rl before] eqn:E.
  - exfalso. assert (H : In r0 (state_df full st)) by now apply Hmem.
    apply in_rev in H. rewrite E in H. contradiction.
  - assert (El : state_df full st = rev before ++ [rl]).
    { rewrite <- (rev_involutive (state_df full st)), E. reflexivity. }
    assert (Hlast : In rl (state_df full st)).
    { rewrite El. apply in_or_app. right. now left. }
    assert (Hmax : forall r, In r (state_df full st) -> date r <= date rl).
    { intros r Hr. rewrite El in Hr, Hs. apply in_app_or in Hr.
      destruct Hr as [Hr|[<-|[]]]; [|lia].
      apply StronglySorted_last in Hs. rewrite Forall_forall in Hs.
      now apply row_leb_date, Hs. }
    exists (date rl), (filter (fun x => date rl - RECENT_DAYS <=? date x)
                              (state_df full st)).
    split; [reflexivity|]. split; [|split].
    + exists rl. apply Hmem in Hlast. tauto.
    + intros r Hr Hst. apply Hmax, Hmem. tauto.
    + intros r. rewrite filter_In, Hmem, Z.leb_le. unfold RECENT_DAYS. split.
      * intros [[Hr Hst] Hd]. repeat split; auto. apply Hmax, Hmem. tauto.
      * intros (Hr & Hst & Hd). repeat split; auto. lia.
Qed.

Example recent_rows_twenty_days :
  option_map (map date) (recent_rows full_twenty_days "Illinois")
  = Some [6; 7; 8; 9; 10; 11; 12; 13; 14; 15; 16; 17; 18; 19; 20].
Proof. reflexivity. Qed.

Lemma recent_rows_window_witness :
  exists latest rec,
    recent_rows full_twenty_days "Illinois" = Some rec
    /\ (exists r, In r full_twenty_days
                  /\ state r = "Illinois"%string /\ date r = latest)
    /\ (forall r, In r full_twenty_days ->
                  state r = "Illinois"%string -> date r <= latest)
    /\ (forall r, In r rec
                  <-> In r full_twenty_days /\ state r = "Illinois"%string
                      /\ latest - 14 <= date r <= latest).
Proof.
  assert (Hin : In (cook_row 20 200 20 10 1) full_twenty_days).
  { vm_compute. repeat (first [left; reflexivity | right]). }
  assert (Hst : "Illinois"%string <> ""%string) by discriminate.
  exact (recent_rows_window table_twenty_days full_twenty_days "Illinois" _
           Hst full_df_twenty_days Hin eq_refl).
Defined.

(** ** The dropdowns *)

Example options_in_date_order :
  state_options full_in_date_order = ["Illinois"; "Washington"; ""]%string
  /\ county_options full_in_date_order = [""; "Cook"; "Snohomish"]%string.
Proof. split; reflexivity. Qed.

Lemma state_options_In (full : list row) (st : string) :
  In st (state_options full) <-> st = ""%string \/ exists r, In r full /\ state r = st.
Proof.
  unfold state_options. rewrite in_app_iff. split.
  - intros [H|[<-|[]]]; [right|now left].
    apply (Permutation_in _ (stable_sort_perm _ _)) in H.
    apply nodup_In, in_map_iff in H. destruct H as (r & Hs & Hr). eauto.
  - intros [->|(r & Hr & Hs)]; [right; now left|left].
    apply (Permutation_in _ (Permutation_sym (stable_sort_perm _ _))).
    apply nodup_In, in_map_iff. eauto.
Qed.

(** X19: every state that the state dropdown offers, the empty entry apart,
    has rows: selecting it with no county gives a table that is not empty,
    and the recent window of the heatmaps has a value for it. *)
Theorem state_option_has_rows (full : list row) (st : string) :
  In st (state_options full) -> st <> ""%string ->
  make_plots_filter full st "" <> [] /\ recent_rows full st <> None.
Proof.
  intros Hin Hst. apply state_options_In in Hin.
  destruct Hin as [->|(r & Hr & Hs)]; [contradiction|].
  assert (Hsel : In r (filter (fun r => (state r =? st)%string) full)).
  { apply filter_In. split; [exact Hr|]. now apply String.eqb_eq. }
  split.
  - unfold make_plots_filter. apply String.eqb_neq in Hst. rewrite Hst. cbn.
    intros E. rewrite E in Hsel. contradiction.
  - unfold recent_rows, state_df. apply in_rev in Hsel.
    destruct (rev (filter (fun r => (state r =? st)%string) full));
      [contradiction|discriminate].
Qed.

Lemma state_option_has_rows_witness :
  make_plots_filter full_in_date_order "Illinois" "" <> []
  /\ recent_rows full_in_date_order "Illinois" <> None.
Proof.
  apply (state_option_has_rows full_in_date_order "Illinois").
  - rewrite (proj1 options_in_date_order). now left.
  - discriminate.
Defined.
